(** * infinite_busy_cmd.py: a shallow embedding and its verified properties

    The script prints an endless stream of synthetic log lines, progress
    bars and spinners.  Everything the script obtains from outside (the
    pseudo-random generator, the wall clock, the HTTP endpoint) is read
    from the [World], and everything it does to the terminal is appended
    to the world's event trace.  Each Python function becomes a computation
    in the state monad [M] over [World]. *)

From Stdlib Require Import List String Ascii Bool Arith NArith ZArith QArith Qround Lia Lqa.
From Stdlib Require Import Decimal DecimalString.
From Stdlib Require Import Floats.
Import ListNotations.

Set Warnings "-inexact-float".

Local Open Scope string_scope.

(** ** Python string operations used by the script *)

Module PyStr.

Definition is_upper (c : ascii) : bool :=
  let n := nat_of_ascii c in (65 <=? n)%nat && (n <=? 90)%nat.

Definition is_lower (c : ascii) : bool :=
  let n := nat_of_ascii c in (97 <=? n)%nat && (n <=? 122)%nat.

Definition lower_char (c : ascii) : ascii :=
  if is_upper c then ascii_of_nat (nat_of_ascii c + 32) else c.

Definition upper_char (c : ascii) : ascii :=
  if is_lower c then ascii_of_nat (nat_of_ascii c - 32) else c.

(** [str.lower()] on ASCII text. *)
Fixpoint lower (s : string) : string :=
  match s with
  | EmptyString => EmptyString
  | String c s' => String (lower_char c) (lower s')
  end.

(** [str.capitalize()]: first character upper-cased, the rest lower-cased. *)
Definition capitalize (s : string) : string :=
  match s with
  | EmptyString => EmptyString
  | String c s' => String (upper_char c) (lower s')
  end.

(** [s * k] for a string [s]; a count below one gives the empty string. *)
Fixpoint repeat_nat (s : string) (k : nat) : string :=
  match k with
  | O => EmptyString
  | S k' => s ++ repeat_nat s k'
  end.

Definition repeat (s : string) (k : Z) : string := repeat_nat s (Z.to_nat k).

(** [str(n)] for an integer. *)
Definition of_Z (z : Z) : string := NilZero.string_of_int (Z.to_int z).

Definition of_N (n : N) : string := of_Z (Z.of_N n).

(** Left padding with [c] up to [width] characters. *)
Definition pad_left (c : ascii) (width : nat) (s : string) : string :=
  repeat_nat (String c EmptyString) (width - String.length s) ++ s.

(** The format spec [:3d]. *)
Definition format_3d (z : Z) : string := pad_left " "%char 3 (of_Z z).

(** Zero padded decimal, as [strftime] prints the fields of a date. *)
Definition zero_pad (width : nat) (n : N) : string :=
  pad_left "0"%char width (of_N n).

(** Last character of a string, if any. *)
Fixpoint last_char (s : string) : option ascii :=
  match s with
  | EmptyString => None
  | String c EmptyString => Some c
  | String _ s' => last_char s'
  end.

(** [str.endswith]. *)
Definition endswith (s suffix : string) : bool :=
  let n := String.length s in
  let k := String.length suffix in
  (k <=? n)%nat && String.eqb (substring (n - k) k s) suffix.

(** *** [str.format] with keyword arguments

    The fragment of the format mini-language that the templates of the
    script use: literal text, the escapes [{{] and [}}], and replacement
    fields [{name}] looked up among the keyword arguments, whose values
    are given already converted by [str].  [None] stands for the
    exception Python raises (a lone brace, an unterminated field, a name
    that is no keyword argument) and for replacement fields outside this
    fragment (conversions, format specs, attribute or index access). *)

Definition kwargs := list (string * string).

Fixpoint lookup (kw : kwargs) (name : string) : option string :=
  match kw with
  | [] => None
  | (k, v) :: kw' => if String.eqb k name then Some v else lookup kw' name
  end.

Definition field_special (c : ascii) : bool :=
  (c =? "{")%char || (c =? ":")%char || (c =? "!")%char
  || (c =? ".")%char || (c =? "[")%char.

Definition snoc (s : string) (c : ascii) : string := s ++ String c EmptyString.

(** [st = None]: reading literal text; [st = Some name]: inside a
    replacement field whose name so far is [name]. *)
Fixpoint format_from (kw : kwargs) (st : option string) (t : string)
  : option string :=
  match t with
  | EmptyString =>
      match st with
      | None => Some EmptyString
      | Some _ => None
      end
  | String c t' =>
      match st with
      | None =>
          if (c =? "{")%char then
            match t' with
            | String c' t'' =>
                if (c' =? "{")%char
                then option_map (String c) (format_from kw None t'')
                else format_from kw (Some EmptyString) t'
            | EmptyString => format_from kw (Some EmptyString) t'
            end
          else if (c =? "}")%char then
            match t' with
            | String c' t'' =>
                if (c' =? "}")%char
                then option_map (String c) (format_from kw None t'')
                else None
            | EmptyString => None
            end
          else option_map (String c) (format_from kw None t')
      | Some name =>
          if (c =? "}")%char then
            match lookup kw name with
            | Some v => option_map (append v) (format_from kw None t')
            | None => None
            end
          else if field_special c then None
          else format_from kw (Some (snoc name c)) t'
      end
  end.

Definition format (t : string) (kw : kwargs) : option string :=
  format_from kw None t.

End PyStr.

(** ** Configuration constants and word banks *)

(** A dyadic rational [m * 2^-e]: the exact value of a binary64 number. *)
Definition dyadic (m : Z) (e : positive) : Q := Qmake m (2 ^ e)%positive.

(** The exact binary64 values of the literals the script compares
    [random.random()] with. *)
Definition PROGRESS_BAR_CHANCE : Q := dyadic 8646911284551352 57.  (* 0.06 *)
Definition SPINNER_CHANCE : Q := dyadic 5764607523034235 57.       (* 0.04 *)
Definition API_QUOTE_FREQ : Q := dyadic 5764607523034235 56.       (* 0.08 *)
Definition CHAIN_CHANCE : Q := dyadic 6305039478318694 54.         (* 0.35 *)
Definition CMD_CHANCE : Q := dyadic 7926335344172073 55.           (* 0.22 *)

Definition TICK_MIN : Q := 5 # 100.
Definition TICK_MAX : Q := 5 # 10.
Definition CLEAR_SCREEN_EVERY : Z := 200.
Definition SHOW_PROGRESS_BARS : bool := true.

Definition adjectives : list string :=
  [ "optimized"; "resilient"; "concurrent"; "deprecated"; "asynchronous";
    "deterministic"; "probabilistic"; "scalable"; "redundant"; "compressed";
    "normalized"; "encrypted"; "authenticated"; "verified"; "transient" ].

Definition verbs : list string :=
  [ "initializing"; "synchronizing"; "compacting"; "indexing"; "migrating";
    "ingesting"; "persisting"; "validating"; "replicating"; "profiling";
    "seeding"; "evicting"; "flushing"; "calibrating"; "probing" ].

Definition nouns : list string :=
  [ "cluster"; "shard"; "manifest"; "cache"; "backplane"; "registry";
    "snapshot"; "transaction log"; "pipeline"; "matrix"; "vector";
    "protocol"; "kernel"; "artifact"; "handshake"; "telemetry stream" ].

Definition systems : list string :=
  [ "auth service"; "payment gateway"; "ingest worker"; "analytics node";
    "time-series engine"; "replicator"; "orchestrator"; "scheduler";
    "ETL job" ].

Definition error_levels : list string :=
  [ "INFO"; "DEBUG"; "WARN"; "ERROR"; "TRACE"; "CRITICAL" ].

Definition level_weights : list Z := [ 40; 25; 15; 8; 8; 4 ]%Z.

Definition sentence_templates : list string :=
  [ "The {adj} {noun} {verb} {detail}.";
    "{verb_cap} {noun} in the {system} to satisfy integrity checks.";
    "Checkpoint reached: {noun} {verb} with {num} entries processed.";
    "{verb_cap} {noun}... {status}.";
    "User-visible latency improved by {pct}% after {verb} of the {noun}.";
    "Scheduling background {noun} for {system} at {time}.";
    "Rolling update: {noun} on {system} moved to {adj} state.";
    "Telemetry: {num} events/sec for {system} (p90 {ms}ms).";
    "Cache miss ratio at {pct}%, invoking {verb} routine.";
    "{system} reported: {detail}" ].

Definition status_phrases : list string :=
  [ "OK"; "COMPLETE"; "FAILED (retrying)"; "PENDING"; "QUEUED"; "ABORTED";
    "SUCCESS"; "PARTIAL SUCCESS"; "TIMED OUT"; "DEFERRED" ].

Definition details : list string :=
  [ "waiting for quorum"; "performing sanity checks"; "evicting stale entries";
    "applying adaptive backoff"; "rebuilding index"; "rotating keys";
    "reconciling state across zones"; "compressing deltas";
    "validating checksums" ].

Definition commands : list string :=
  [ "run-migration"; "sync-index"; "rotate-keys"; "reconcile --fast";
    "snapshot --compress"; "audit --level=high"; "throttle --limit=200" ].

(** ** The world the script runs in *)

(** The fields of [datetime.now()]. *)
Record datetime := {
  year : N; month : N; day : N;
  hour : N; minute : N; second : N; microsecond : N
}.

(** Python exceptions that can occur while the script runs. *)
Inductive exn :=
| ConnectionError | ReadTimeout | RequestException
| JSONDecodeError | AttributeError
| FormatError          (* KeyError, IndexError or ValueError of str.format *)
| ValueError | IndexError | ZeroDivisionError
| KeyboardInterrupt.

(** The classes caught by [except Exception]: everything but
    [KeyboardInterrupt], which derives from [BaseException] only. *)
Definition is_Exception (e : exn) : bool :=
  match e with
  | KeyboardInterrupt => false
  | _ => true
  end.

(** The body of an HTTP response, as [resp.json()] and [data.get] see it:
    not JSON at all, JSON that is no object (it has no [get]), or an object
    with the text [str] gives for its ["content"] and ["author"] members
    ([None] for a member that is absent). *)
Inductive Body :=
| Malformed
| NotAnObject
| Object (content author : option string).

Record Response := { status_code : Z; body : Body }.

(** What [requests.get(url, timeout=2.5)] does. *)
Inductive HttpOutcome :=
| GetRaises (e : exn)
| GetReturns (resp : Response).

(** What the script does to the terminal and to the process. *)
Inductive Event :=
| Printed (s : string)        (* print(s): the text and a newline *)
| PrintedCR (s : string)      (* print(s, end=CR): the text and a carriage return *)
| Flushed                     (* sys.stdout.flush() *)
| Slept (seconds : Q)         (* time.sleep(seconds) *)
| Ran (cmd : string).         (* os.system(cmd) *)

(** The inputs are streams: element [0] is what the next call returns.
    [rng] holds the integers the generator's calls are built from, [wall]
    the readings of [time.time()], [calendar] those of [datetime.now()],
    [http] the outcomes of successive requests. *)
Record World := {
  rng : nat -> N;
  wall : nat -> Q;
  calendar : nat -> datetime;
  http : nat -> HttpOutcome;
  trace : list Event
}.

(** Module level state fixed before [main] runs: whether colorama was
    imported (and [--no-color] not given), whether [requests] was imported,
    and [sys.platform]. *)
Record Env := {
  COLOR : bool;
  have_requests : bool;
  platform : string
}.

(** ** The monad of the script: state and exceptions *)

(** [Pending] is the result of a loop that was cut off by its fuel: the
    Python loop is still running. *)
Inductive Result (A : Type) :=
| Ok (a : A)
| Raise (e : exn)
| Pending.

Arguments Ok {A} a.
Arguments Raise {A} e.
Arguments Pending {A}.

Definition M (A : Type) : Type := World -> Result A * World.

Definition ret {A} (a : A) : M A := fun w => (Ok a, w).

Definition bind {A B} (m : M A) (k : A -> M B) : M B :=
  fun w =>
    match m w with
    | (Ok a, w') => k a w'
    | (Raise e, w') => (Raise e, w')
    | (Pending, w') => (Pending, w')
    end.

Definition raise {A} (e : exn) : M A := fun w => (Raise e, w).

(** [try: m  except Exception: h]. *)
Definition try_except {A} (m : M A) (h : M A) : M A :=
  fun w =>
    match m w with
    | (Raise e, w') => if is_Exception e then h w' else (Raise e, w')
    | r => r
    end.

Declare Scope py_scope.
Delimit Scope py_scope with py.
Notation "x <- m ;; k" := (bind m (fun x => k))
  (at level 61, m at next level, right associativity) : py_scope.
Notation "m ;;; k" := (bind m (fun _ => k))
  (at level 61, right associativity) : py_scope.
Local Open Scope py_scope.

Definition tl_stream {A} (s : nat -> A) : nat -> A := fun n => s (S n).

(** *** Inputs *)

Definition rng_next : M N := fun w =>
  (Ok (rng w 0),
   {| rng := tl_stream (rng w); wall := wall w; calendar := calendar w;
      http := http w; trace := trace w |}).

Definition time_time : M Q := fun w =>
  (Ok (wall w 0),
   {| rng := rng w; wall := tl_stream (wall w); calendar := calendar w;
      http := http w; trace := trace w |}).

Definition datetime_now : M datetime := fun w =>
  (Ok (calendar w 0),
   {| rng := rng w; wall := wall w; calendar := tl_stream (calendar w);
      http := http w; trace := trace w |}).

Definition requests_get : M Response := fun w =>
  (match http w 0 with
   | GetRaises e => Raise e
   | GetReturns resp => Ok resp
   end,
   {| rng := rng w; wall := wall w; calendar := calendar w;
      http := tl_stream (http w); trace := trace w |}).

(** *** Outputs *)

Definition emit (e : Event) : M unit := fun w =>
  (Ok tt,
   {| rng := rng w; wall := wall w; calendar := calendar w;
      http := http w; trace := trace w ++ [e] |}).

Definition print (s : string) : M unit := emit (Printed s).
Definition print_cr (s : string) : M unit := emit (PrintedCR s).
Definition flush : M unit := emit Flushed.
Definition sleep (d : Q) : M unit := emit (Slept d).
Definition os_system (cmd : string) : M unit := emit (Ran cmd).

(** ** The [random] module

    One element of [rng] is consumed per call.  [random()] is a multiple
    of [2^-53] in [[0, 1)]; [choice] and [randint] go through
    [_randbelow]. *)

Module Random.

Definition two53 : N := 9007199254740992.

Definition random : M Q :=
  n <- rng_next ;;
  ret (Qmake (Z.of_N (n mod two53)) (2 ^ 53)%positive).

Definition randbelow (n : N) : M N :=
  x <- rng_next ;;
  ret (x mod n)%N.

(** [random.choice(seq)]; an empty sequence raises [IndexError]. *)
Definition choice (seq : list string) : M string :=
  match seq with
  | [] => raise IndexError
  | _ =>
      i <- randbelow (N.of_nat (List.length seq)) ;;
      ret (nth (N.to_nat i) seq EmptyString)
  end.

(** [random.randint(a, b)], both ends included. *)
Definition randint (a b : Z) : M Z :=
  if (b <? a)%Z then raise ValueError
  else
    k <- randbelow (Z.to_N (b - a + 1)) ;;
    ret (a + Z.of_N k)%Z.

(** [random.uniform(a, b)] is [a + (b - a) * random()], here in exact
    arithmetic. *)
Definition uniform (a b : Q) : M Q :=
  u <- random ;;
  ret (a + (b - a) * u)%Q.

(** [bisect_right(cum, x, 0, hi)] on an increasing list. *)
Fixpoint bisect (cum : list Z) (x : Q) (hi : nat) : nat :=
  match hi, cum with
  | S hi', c :: cum' =>
      if Qle_bool (inject_Z c) x then S (bisect cum' x hi') else O
  | _, _ => O
  end.

Fixpoint accumulate (acc : Z) (ws : list Z) : list Z :=
  match ws with
  | [] => []
  | w :: ws' => (acc + w)%Z :: accumulate (acc + w)%Z ws'
  end.

(** [random.choices(population, weights)[0]]. *)
Definition choices1 (population : list string) (weights : list Z)
  : M string :=
  let cum := accumulate 0 weights in
  let total := last cum 0%Z in
  u <- random ;;
  ret (nth (bisect cum (u * inject_Z total)%Q (List.length population - 1))
           population EmptyString).

End Random.

(** ** Helpers *)

(** [strftime("%H:%M:%S")] and [strftime("%Y-%m-%d %H:%M:%S")]. *)
Definition strftime_hms (d : datetime) : string :=
  PyStr.zero_pad 2 (hour d) ++ ":" ++ PyStr.zero_pad 2 (minute d) ++ ":"
  ++ PyStr.zero_pad 2 (second d).

Definition strftime_ts (d : datetime) : string :=
  PyStr.zero_pad 4 (year d) ++ "-" ++ PyStr.zero_pad 2 (month d) ++ "-"
  ++ PyStr.zero_pad 2 (day d) ++ " " ++ strftime_hms d.

Definition now_ts : M string :=
  d <- datetime_now ;;
  ret (strftime_ts d).

(** Rounding to the nearest integer, ties to even. *)
Definition round_half_even (q : Q) : Z :=
  let f := Qfloor q in
  match (q - inject_Z f ?= 1 # 2)%Q with
  | Lt => f
  | Gt => (f + 1)%Z
  | Eq => if Z.even f then f else (f + 1)%Z
  end.

(** [str(round(x, 2))] for [x >= 0], in exact arithmetic: the hundredths
    nearest to [x], printed with one decimal when the second is zero. *)
Definition round2_str (x : Q) : string :=
  let h := round_half_even (x * 100) in
  let units := (h / 100)%Z in
  let cents := (h mod 100)%Z in
  PyStr.of_Z units ++ "."
  ++ (if (cents mod 10 =? 0)%Z then PyStr.of_Z (cents / 10)
      else PyStr.zero_pad 2 (Z.to_N cents)).

(** The keyword arguments of [pick], in the order Python evaluates them. *)
Record Fields := {
  f_adj : string; f_verb : string; f_verb_cap : string; f_noun : string;
  f_system : string; f_num : Z; f_pct : Q; f_ms : Z; f_status : string;
  f_detail : string; f_time : datetime
}.

Definition draw_fields : M Fields :=
  adj <- Random.choice adjectives ;;
  verb <- Random.choice verbs ;;
  verb_cap <- Random.choice verbs ;;
  noun <- Random.choice nouns ;;
  system <- Random.choice systems ;;
  num <- Random.randint 1 99999 ;;
  pct <- Random.uniform (1 # 10) (999 # 10) ;;
  ms <- Random.randint 1 1200 ;;
  status <- Random.choice status_phrases ;;
  detail <- Random.choice details ;;
  now <- datetime_now ;;
  ret {| f_adj := adj; f_verb := verb;
         f_verb_cap := PyStr.capitalize verb_cap; f_noun := noun;
         f_system := system; f_num := num; f_pct := pct; f_ms := ms;
         f_status := status; f_detail := detail; f_time := now |}.

Definition kwargs_of (f : Fields) : PyStr.kwargs :=
  [ ("adj", f_adj f); ("verb", f_verb f); ("verb_cap", f_verb_cap f);
    ("noun", f_noun f); ("system", f_system f);
    ("num", PyStr.of_Z (f_num f)); ("pct", round2_str (f_pct f));
    ("ms", PyStr.of_Z (f_ms f)); ("status", f_status f);
    ("detail", f_detail f); ("time", strftime_hms (f_time f)) ].

(** [template.format(adj=..., ..., time=...)] on drawn fields. *)
Definition fill (template : string) (f : Fields) : option string :=
  PyStr.format template (kwargs_of f).

Definition pick (template : string) : M string :=
  f <- draw_fields ;;
  match fill template f with
  | Some s => ret s
  | None => raise FormatError
  end.

(** colorama's escape sequences. *)
Module Fore.
Definition esc (code : string) : string :=
  String (ascii_of_nat 27) ("[" ++ code ++ "m").
Definition RED := esc "31".
Definition GREEN := esc "32".
Definition YELLOW := esc "33".
Definition MAGENTA := esc "35".
Definition CYAN := esc "36".
Definition WHITE := esc "37".
Definition RESET_ALL := esc "0".
End Fore.

Definition colored (env : Env) (s color : string) : string :=
  if negb (COLOR env) then s
  else color ++ s ++ Fore.RESET_ALL.

Definition dquote : string := String (ascii_of_nat 34) EmptyString.

(** The em dash of the quote line, as UTF-8. *)
Definition em_dash : string :=
  String (ascii_of_nat 226)
    (String (ascii_of_nat 128) (String (ascii_of_nat 148) EmptyString)).

(** [str] of what [data.get(key)] returns. *)
Definition str_of_member (m : option string) : string :=
  match m with
  | Some s => s
  | None => "None"
  end.

(** [resp.json()] followed by the two [data.get] calls. *)
Definition quote_of_body (b : Body) : M string :=
  match b with
  | Malformed => raise JSONDecodeError
  | NotAnObject => raise AttributeError
  | Object content author =>
      ret (dquote ++ str_of_member content ++ dquote ++ " " ++ em_dash
           ++ " " ++ str_of_member author)
  end.

Definition fetch_quote (env : Env) : M (option string) :=
  if negb (have_requests env) then ret None
  else
    try_except
      (resp <- requests_get ;;
       if (status_code resp =? 200)%Z then
         q <- quote_of_body (body resp) ;;
         ret (Some q)
       else ret None)
      (ret None).

(** ** Numbers *)

Definition Qlt_bool (x y : Q) : bool := negb (Qle_bool y x).

(** [min(a, b)]: the first argument unless the second is smaller. *)
Definition py_min (a b : Q) : Q := if Qlt_bool b a then b else a.

(** [int(x)]: truncation towards zero. *)
Definition py_int (x : Q) : Z := Z.quot (Qnum x) (Zpos (Qden x)).

(** ** Fancy bits *)

(** A loop that is out of fuel. *)
Definition pending {A} : M A := fun w => (Pending, w).

Definition bar_done (frac : Q) (width : Z) : Z := py_int (frac * inject_Z width).

Definition bar_pct (frac : Q) : Z := py_int (frac * 100).

Definition bar_text (frac : Q) (width : Z) : string :=
  let done := bar_done frac width in
  "[" ++ PyStr.repeat "#" done ++ PyStr.repeat "." (width - done)
  ++ "] " ++ PyStr.format_3d (bar_pct frac) ++ "%".

(** The text of one frame of the progress bar. *)
Definition frame_text (env : Env) (ts : string) (frac : Q) (width : Z)
  : string :=
  colored env (ts ++ " " ++ bar_text frac width ++ "  (updating...)")
          (if COLOR env then Fore.GREEN else EmptyString).

(** The [while True] loop of [progress_bar_simulation]. *)
Fixpoint progress_loop (env : Env) (fuel : nat) (start duration : Q)
  (width : Z) : M unit :=
  match fuel with
  | O => pending
  | S fuel' =>
      t <- time_time ;;
      let elapsed := (t - start)%Q in
      if Qeq_bool duration 0 then raise ZeroDivisionError
      else
        let frac := py_min 1 (elapsed / duration) in
        ts <- now_ts ;;
        print_cr (frame_text env ts frac width) ;;;
        flush ;;;
        if Qle_bool 1 frac then ret tt
        else
          u <- Random.random ;;
          sleep ((6 # 100) + u * (8 # 100)) ;;;
          progress_loop env fuel' start duration width
  end.

Definition progress_bar_simulation (env : Env) (fuel : nat) (duration : Q)
  (width : Z) : M unit :=
  start <- time_time ;;
  progress_loop env fuel start duration width ;;;
  print EmptyString.

Definition spinner_seq : list string := [ "|"; "/"; "-"; "\" ].

Fixpoint spinner_loop (fuel : nat) (t0 duration : Q) (i : nat) : M unit :=
  match fuel with
  | O => pending
  | S fuel' =>
      t <- time_time ;;
      if Qlt_bool (t - t0) duration then
        ts <- now_ts ;;
        print_cr (ts ++ " "
                  ++ nth (i mod List.length spinner_seq) spinner_seq EmptyString
                  ++ " working...") ;;;
        sleep (8 # 100) ;;;
        spinner_loop fuel' t0 duration (S i)
      else ret tt
  end.

Definition spinner (fuel : nat) (duration : Q) : M unit :=
  t0 <- time_time ;;
  spinner_loop fuel t0 duration 0 ;;;
  print EmptyString.

(** ** The line generator (lines 194 to 211 of [main]) *)

(** A generated line.  [ll_templates] records which templates were chosen;
    the script keeps only the text. *)
Record LogLine := {
  ll_ts : string;
  ll_lvl : string;
  ll_pid : Z;
  ll_templates : list string;
  ll_sentence : string;
  ll_cmd : option string
}.

Definition cmd_suffix (c : option string) : string :=
  match c with
  | Some cmd => "  cmd: " ++ cmd
  | None => EmptyString
  end.

(** The value of [log_line] when it is printed. *)
Definition log_line_text (l : LogLine) : string :=
  ll_ts l ++ " [" ++ ll_lvl l ++ "] (pid:" ++ PyStr.of_Z (ll_pid l) ++ ") "
  ++ ll_sentence l ++ cmd_suffix (ll_cmd l).

(** [random.random() < p]. *)
Definition chance (p : Q) : M bool :=
  u <- Random.random ;;
  ret (Qlt_bool u p).

(** The sentence [s] and the templates it was built from. *)
Definition build_sentence : M (list string * string) :=
  chain <- chance CHAIN_CHANCE ;;
  if chain then
    t1 <- Random.choice sentence_templates ;;
    s1 <- pick t1 ;;
    t2 <- Random.choice sentence_templates ;;
    s2 <- pick t2 ;;
    ret ([t1; t2], s1 ++ " " ++ PyStr.lower s2)
  else
    t <- Random.choice sentence_templates ;;
    s <- pick t ;;
    ret ([t], s).

Definition generate : M LogLine :=
  ts_s <- build_sentence ;;
  lvl <- Random.choices1 error_levels level_weights ;;
  pid <- Random.randint 1000 99999 ;;
  ts <- now_ts ;;
  with_cmd <- chance CMD_CHANCE ;;
  cmd <- (if with_cmd then
            c <- Random.choice commands ;;
            ret (Some c)
          else ret None) ;;
  ret {| ll_ts := ts; ll_lvl := lvl; ll_pid := pid;
         ll_templates := fst ts_s; ll_sentence := snd ts_s;
         ll_cmd := cmd |}.

Definition level_color (lvl : string) : string :=
  if String.eqb lvl "ERROR" || String.eqb lvl "CRITICAL" then Fore.RED
  else if String.eqb lvl "WARN" then Fore.YELLOW
  else if String.eqb lvl "DEBUG" then Fore.CYAN
  else Fore.WHITE.

(** Lines 194 to 228: generate a line, print it, count it, pause. *)
Definition emit_log_line (env : Env) (line_counter : Z) : M Z :=
  l <- generate ;;
  (if COLOR env
   then print (colored env (log_line_text l) (level_color (ll_lvl l)))
   else print (log_line_text l)) ;;;
  d <- Random.uniform TICK_MIN TICK_MAX ;;
  u <- Random.random ;;
  sleep (d * ((6 # 10) + u)) ;;;
  ret (line_counter + 1)%Z.

(** ** Main infinite loop *)

(** The guard of line 166, with Python's truth values of integers and
    its [%], whose sign follows the divisor as [Z.modulo] does. *)
Definition should_clear (clear_every line_counter : Z) : bool :=
  negb (clear_every =? 0)%Z && (0 <? clear_every)%Z
  && negb (line_counter =? 0)%Z && (line_counter mod clear_every =? 0)%Z.

Definition clear_command (env : Env) : string :=
  if String.prefix "win" (platform env) then "cls" else "clear".

(** Lines 166 to 172. *)
Definition maybe_clear (env : Env) (clear_every line_counter : Z) : M unit :=
  if should_clear clear_every line_counter then
    os_system (clear_command env) ;;;
    ts <- now_ts ;;
    print (if COLOR env
           then colored env (ts ++ " [SYSTEM] Switched display buffer.")
                        Fore.CYAN
           else ts ++ " [SYSTEM] Switched display buffer.")
  else ret tt.

(** [b and m], evaluating [m] only when [b] holds. *)
Definition and_then (b : bool) (m : M bool) : M bool :=
  if b then m else ret false.

(** Python's truth value of [q] in [if q:]. *)
Definition truthy (q : option string) : bool :=
  match q with
  | Some (String _ _) => true
  | _ => false
  end.

(** Lines 184 to 228: a quote if one is due and could be fetched,
    otherwise a generated line. *)
Definition quote_or_line (env : Env) (use_api : bool) (line_counter : Z)
  : M Z :=
  due <- and_then (use_api && have_requests env) (chance API_QUOTE_FREQ) ;;
  q <- (if due then fetch_quote env else ret None) ;;
  if truthy q then
    ts <- now_ts ;;
    (let text := ts ++ " QUOTE: " ++ str_of_member q in
     print (if COLOR env then colored env text Fore.MAGENTA else text)) ;;;
    d <- Random.uniform TICK_MIN TICK_MAX ;;
    sleep (d + (15 # 100)) ;;;
    ret (line_counter + 1)%Z
  else emit_log_line env line_counter.

(** One pass through the body of [while True]; the result is the new
    value of [line_counter].  [fuel] bounds the loops of the animations. *)
Definition iteration (env : Env) (use_api : bool) (clear_every : Z)
  (fuel : nat) (line_counter : Z) : M Z :=
  maybe_clear env clear_every line_counter ;;;
  bar <- and_then SHOW_PROGRESS_BARS (chance PROGRESS_BAR_CHANCE) ;;
  if bar then
    d <- Random.uniform (8 # 10) (25 # 10) ;;
    progress_bar_simulation env fuel d 30 ;;;
    ret (line_counter + 3)%Z
  else
    spin <- chance SPINNER_CHANCE ;;
    if spin then
      d <- Random.uniform (6 # 10) (18 # 10) ;;
      spinner fuel d ;;;
      ret (line_counter + 2)%Z
    else quote_or_line env use_api line_counter.

(** [n] passes through the loop, starting with the counter at
    [line_counter]. *)
Fixpoint main_loop (env : Env) (use_api : bool) (clear_every : Z)
  (fuel : nat) (n : nat) (line_counter : Z) : M Z :=
  match n with
  | O => ret line_counter
  | S n' =>
      c <- iteration env use_api clear_every fuel line_counter ;;
      main_loop env use_api clear_every fuel n' c
  end.

Definition farewell (env : Env) : M unit :=
  ts <- now_ts ;;
  print (if COLOR env
         then String (ascii_of_nat 10)
                (colored env (ts ++ " [SYSTEM] Interrupted by user. Exiting.")
                         Fore.CYAN)
         else String (ascii_of_nat 10)
                (ts ++ " [SYSTEM] Interrupted by user. Exiting.")).

(** [main], interrupted from the keyboard after [n] passes (or earlier,
    by a [KeyboardInterrupt] that a request lets through).  Any other
    exception leaves [main]. *)
Definition main (env : Env) (use_api : bool) (clear_every : Z)
  (fuel n : nat) : M unit :=
  fun w =>
    match main_loop env use_api clear_every fuel n 0%Z w with
    | (Ok _, w') => farewell env w'
    | (Raise KeyboardInterrupt, w') => farewell env w'
    | (Raise e, w') => (Raise e, w')
    | (Pending, w') => (Pending, w')
    end.

(** The [__main__] block: [--use-api] without [requests] is switched off
    after a warning, [--no-color] clears [COLOR]. *)
Definition cli (env : Env) (use_api no_color : bool) (clear_every : Z)
  (fuel n : nat) : M unit :=
  let env' := {| COLOR := COLOR env && negb no_color;
                 have_requests := have_requests env;
                 platform := platform env |} in
  (if use_api && negb (have_requests env) then
     print "Warning: requests library not found. Install with: pip install requests" ;;;
     print "Continuing without API."
   else ret tt) ;;;
  main env' (use_api && have_requests env) clear_every fuel n.

(** The number of screen clears in a trace. *)
Definition is_clear (e : Event) : bool :=
  match e with
  | Ran cmd => String.eqb cmd "cls" || String.eqb cmd "clear"
  | _ => false
  end.

Definition clears (t : list Event) : nat :=
  List.length (filter is_clear t).

(** ** Reading the streams by position

    The definitions below name what a computation reads from the streams
    and the world it leaves behind; the lemmas on the generator relate
    them to the computations above. *)

(** The world after [r] draws and [c] readings of the calendar. *)
Definition advance (r c : nat) (w : World) : World :=
  {| rng := fun n => rng w (r + n); wall := wall w;
     calendar := fun n => calendar w (c + n); http := http w;
     trace := trace w |}.

(** The value of [random()] built from the draw [n]. *)
Definition u53 (n : N) : Q :=
  Qmake (Z.of_N (n mod Random.two53)) (2 ^ 53)%positive.

(** The element that [choice] takes from [seq] on the draw [n]. *)
Definition pick_at {A} (seq : list A) (d : A) (n : N) : A :=
  nth (N.to_nat (n mod N.of_nat (List.length seq))) seq d.

(** The fields that [draw_fields] reads from the next ten draws. *)
Definition fields_at (w : World) : Fields :=
  {| f_adj := pick_at adjectives EmptyString (rng w 0);
     f_verb := pick_at verbs EmptyString (rng w 1);
     f_verb_cap := PyStr.capitalize (pick_at verbs EmptyString (rng w 2));
     f_noun := pick_at nouns EmptyString (rng w 3);
     f_system := pick_at systems EmptyString (rng w 4);
     f_num := (1 + Z.of_N (rng w 5 mod 99999))%Z;
     f_pct := ((1 # 10) + ((999 # 10) - (1 # 10)) * u53 (rng w 6))%Q;
     f_ms := (1 + Z.of_N (rng w 7 mod 1200))%Z;
     f_status := pick_at status_phrases EmptyString (rng w 8);
     f_detail := pick_at details EmptyString (rng w 9);
     f_time := calendar w 0 |}.

(** The text of a template that is known to format. *)
Definition filled (t : string) (f : Fields) : string :=
  match fill t f with
  | Some s => s
  | None => EmptyString
  end.

Definition template_at (n : N) : string :=
  pick_at sentence_templates EmptyString n.

(** Whether the first draw chains a second sentence. *)
Definition chain_at (w : World) : bool :=
  Qlt_bool (u53 (rng w 0)) CHAIN_CHANCE.

Definition sentence_at (w : World) : list string * string :=
  let t1 := template_at (rng w 1) in
  let s1 := filled t1 (fields_at (advance 2 0 w)) in
  if chain_at w then
    let t2 := template_at (rng w 12) in
    let s2 := filled t2 (fields_at (advance 13 1 w)) in
    ([t1; t2], s1 ++ " " ++ PyStr.lower s2)
  else ([t1], s1).

Definition after_sentence (w : World) : World :=
  if chain_at w then advance 23 2 w else advance 12 1 w.

(** The severity that [choices1] takes on the draw [n]. *)
Definition level_at (n : N) : string :=
  let cum := Random.accumulate 0 level_weights in
  nth (Random.bisect cum (u53 n * inject_Z (last cum 0%Z))%Q
         (List.length error_levels - 1))
      error_levels EmptyString.

(** Whether the third draw after the sentence appends a command. *)
Definition cmd_at (w : World) : bool :=
  Qlt_bool (u53 (rng (after_sentence w) 2)) CMD_CHANCE.

(** The line that [generate] builds in the world [w]. *)
Definition line_at (w : World) : LogLine :=
  let w1 := after_sentence w in
  {| ll_ts := strftime_ts (calendar w1 0);
     ll_lvl := level_at (rng w1 0);
     ll_pid := (1000 + Z.of_N (rng w1 1 mod 99000))%Z;
     ll_templates := fst (sentence_at w);
     ll_sentence := snd (sentence_at w);
     ll_cmd := if cmd_at w
               then Some (pick_at commands EmptyString (rng w1 3))
               else None |}.

Definition after_line (w : World) : World :=
  if cmd_at w then advance 4 1 (after_sentence w)
  else advance 3 1 (after_sentence w).

(** ** Concrete worlds *)

(** A stream that starts with the elements of [l] and goes on with [d]. *)
Definition stream_of {A} (l : list A) (d : A) : nat -> A :=
  fun n => nth n l d.

Definition morning : datetime :=
  {| year := 2026; month := 11; day := 3;
     hour := 9; minute := 5; second := 7; microsecond := 0 |}.

(** A world with the given draws (then zeros), a clock that stands at
    [now], a wall clock that counts seconds from zero, and a network that
    refuses every connection. *)
Definition world_of (draws : list N) (now : datetime) : World :=
  {| rng := stream_of draws 0%N;
     wall := fun n => inject_Z (Z.of_nat n);
     calendar := fun _ => now;
     http := fun _ => GetRaises ConnectionError;
     trace := [] |}.

(** The largest draw: [random()] is then just below one. *)
Definition top : N := 9007199254740991.

(** Draws that select "optimized", "evicting", "cache" and
    "rotating keys". *)
Definition world_keys : World :=
  world_of [0; 11; 0; 3; 0; 0; 0; 0; 0; 5]%N morning.

(** No chaining, the first template, the largest process id, no command. *)
Definition world_pid_max : World :=
  world_of [top; 0; 0; 11; 0; 3; 0; 0; 0; 0; 0; 5; 0; 98999; top]%N morning.

(** The claimed half-open range of process ids. *)
Definition pid_half_open (l : LogLine) : Prop :=
  (1000 <= ll_pid l < 99999)%Z.

(** No chaining, the first template, and a trailing command. *)
Definition draws_cmd : list N :=
  [top; 0; 0; 11; 0; 3; 0; 0; 0; 0; 0; 5; 0; 0; 0; 0]%N.

Definition world_cmd : World := world_of draws_cmd morning.

(** No chaining, the last template, no command. *)
Definition world_reported : World :=
  world_of [top; 9; 0; 11; 0; 3; 0; 0; 0; 0; 0; 5; 0; 0; top]%N morning.

(** Chaining of the second and the first template, no command. *)
Definition world_chain : World :=
  world_of [0; 1; 0; 11; 4; 3; 2; 0; 0; 0; 0; 5;
            0; 0; 11; 0; 3; 0; 0; 0; 0; 0; 5; 0; 0; top]%N morning.

(** ** The algorithm in the words of the specification *)








(** ** Inputs of the generator *)

(** Two readings of the calendar that [strftime] cannot tell apart: they
    agree down to the second. *)
Definition same_second (d1 d2 : datetime) : Prop :=
  year d1 = year d2 /\ month d1 = month d2 /\ day d1 = day d2
  /\ hour d1 = hour d2 /\ minute d1 = minute d2 /\ second d1 = second d2.

(** Two worlds with the same random source and, to the second, the same
    calendar; the wall clock, the network and the trace may differ. *)
Definition same_inputs (w1 w2 : World) : Prop :=
  (forall n, rng w1 n = rng w2 n)
  /\ (forall n, same_second (calendar w1 n) (calendar w2 n)).

Definition evening : datetime :=
  {| year := 2026; month := 11; day := 3;
     hour := 21; minute := 40; second := 12; microsecond := 0 |}.

Definition morning_later : datetime :=
  {| year := 2026; month := 11; day := 3;
     hour := 9; minute := 5; second := 7; microsecond := 250000 |}.

(** The draws of [world_cmd], read in the evening. *)
Definition world_cmd_evening : World := world_of draws_cmd evening.

(** The draws of [world_cmd] a quarter of a second later, with another
    wall clock and a network that answers. *)
Definition world_cmd_later : World :=
  {| rng := stream_of draws_cmd 0%N;
     wall := fun _ => 0%Q;
     calendar := fun _ => morning_later;
     http := fun _ => GetReturns {| status_code := 200; body := Malformed |};
     trace := [Flushed] |}.

(** ** Failures of the remote fetch *)

(** The ways in which fetching a quote fails: [requests] is not installed;
    the request raises an exception (connection error, timeout); the
    status is not 200; the body is not JSON or is JSON without members. *)
Definition fetch_fails (env : Env) (o : HttpOutcome) : Prop :=
  have_requests env = false
  \/ (exists e, o = GetRaises e /\ is_Exception e = true)
  \/ (exists r, o = GetReturns r /\ status_code r <> 200%Z)
  \/ (exists r, o = GetReturns r /\ status_code r = 200%Z
                /\ (body r = Malformed \/ body r = NotAnObject)).

(** The world after one request. *)
Definition after_request (w : World) : World :=
  {| rng := rng w; wall := wall w; calendar := calendar w;
     http := tl_stream (http w); trace := trace w |}.

(** The world with one more event in its trace. *)
Definition logged (e : Event) (w : World) : World :=
  {| rng := rng w; wall := wall w; calendar := calendar w;
     http := http w; trace := trace w ++ [e] |}.

(** What [emit_log_line] prints for the line [l]. *)
Definition printed_line (env : Env) (l : LogLine) : string :=
  if COLOR env then colored env (log_line_text l) (level_color (ll_lvl l))
  else log_line_text l.

(** The pause after a line, from the two draws that follow it. *)
Definition pause_at (w : World) : Q :=
  ((TICK_MIN + (TICK_MAX - TICK_MIN) * u53 (rng w 0))
   * ((6 # 10) + u53 (rng w 1)))%Q.

(** The world after [emit_log_line]. *)
Definition after_emit (env : Env) (w : World) : World :=
  logged (Slept (pause_at (after_line w)))
    (advance 2 0 (logged (Printed (printed_line env (line_at w)))
                    (after_line w))).

(** A network whose first request times out. *)
Definition world_timeout : World :=
  {| rng := stream_of (0 :: draws_cmd)%N 0%N;
     wall := fun n => inject_Z (Z.of_nat n);
     calendar := fun _ => morning;
     http := fun _ => GetRaises ReadTimeout;
     trace := [] |}.

Definition env_plain : Env :=
  {| COLOR := false; have_requests := true; platform := "linux" |}.

(** The percentages that the frames of a progress bar show, next to the
    events that draw the frames: every frame is printed and flushed, and
    every frame but the last is followed by a pause. *)
Inductive rendered (env : Env) (width : Z) : list Z -> list Event -> Prop :=
| rendered_last ts frac :
    rendered env width [bar_pct frac]
      [PrintedCR (frame_text env ts frac width); Flushed]
| rendered_more ts frac d pcts evs :
    rendered env width pcts evs ->
    rendered env width (bar_pct frac :: pcts)
      (PrintedCR (frame_text env ts frac width) :: Flushed :: Slept d :: evs).

Definition after_time (w : World) : World :=
  {| rng := rng w; wall := tl_stream (wall w); calendar := calendar w;
     http := http w; trace := trace w |}.

(** The fraction of the bar at the next reading of the wall clock. *)
Definition frac_at (start duration : Q) (w : World) : Q :=
  py_min 1 ((wall w 0 - start) / duration).

Definition frame_at (env : Env) (start duration : Q) (width : Z) (w : World)
  : Event :=
  PrintedCR (frame_text env (strftime_ts (calendar w 0))
               (frac_at start duration w) width).

Definition nap_at (w : World) : Event :=
  Slept ((6 # 100) + u53 (rng w 0) * (8 # 100))%Q.

(** The world after a frame has been drawn. *)
Definition after_frame (env : Env) (start duration : Q) (width : Z)
  (w : World) : World :=
  logged Flushed
    (logged (frame_at env start duration width w)
       (advance 0 1 (after_time w))).


(** A wall clock that counts seconds and a bar of a second and a half. *)
Definition world_bar : World := world_of [] morning.

(** A computation that never clears the screen, however it ends. *)
Definition quiet {A} (m : M A) : Prop :=
  forall w, clears (trace (snd (m w))) = clears (trace w).


(** The draws of one pass that prints a generated line: no bar, no
    spinner, one sentence from the first template, no command, and the
    two draws of the pause. *)
Definition draws_line : list N :=
  [top; top; top; 0; 0; 11; 0; 3; 0; 0; 0; 0; 0; 5; 0; 0; top; 0; 0]%N.

(** The draws of one pass that runs a spinner. *)
Definition draws_spinner : list N := [top; 0; 0]%N.

(** Two lines, a spinner, then lines. *)
Definition world_skip : World :=
  world_of (draws_line ++ draws_line ++ draws_spinner
            ++ draws_line ++ draws_line ++ draws_line)%list morning.

(** The number of completed lines in a trace. *)
Definition is_line (e : Event) : bool :=
  match e with
  | Printed _ => true
  | _ => false
  end.

Definition lines_printed (t : list Event) : nat :=
  List.length (filter is_line t).

(** ** The floating-point literals *)

(** The rational value of a finite binary64 number. *)
Definition Q_of_float (x : PrimFloat.float) : Q :=
  match FloatOps.Prim2SF x with
  | SpecFloat.S754_finite s m e =>
      let n := if s then Z.neg m else Z.pos m in
      match e with
      | Z0 => inject_Z n
      | Zpos p => inject_Z (n * 2 ^ Zpos p)
      | Zneg p => Qmake n (2 ^ p)%positive
      end
  | _ => 0
  end.

(** ** Definitions for further properties of the script *)


(** The names of the keyword arguments of [pick]. *)
Definition placeholder_names : list string :=
  [ "adj"; "verb"; "verb_cap"; "noun"; "system"; "num"; "pct"; "ms";
    "status"; "detail"; "time" ].

(** Text without braces. *)
Fixpoint brace_free (s : string) : bool :=
  match s with
  | EmptyString => true
  | String c s' =>
      negb (c =? "{")%char && negb (c =? "}")%char && brace_free s'
  end.

(** A field name made of ordinary characters: no brace and none of the
    characters that start a conversion, a format spec or an access. *)
Fixpoint plain_name (s : string) : bool :=
  match s with
  | EmptyString => true
  | String c s' =>
      negb (c =? "}")%char && negb (PyStr.field_special c) && plain_name s'
  end.

(** A relation between the world before and after a computation that
    holds of no step at all and of steps in sequence. *)
Record Frame := {
  holds : World -> World -> Prop;
  holds_refl : forall w, holds w w;
  holds_trans : forall a b c, holds a b -> holds b c -> holds a c
}.

(** [m] keeps the frame [F], however it ends, and what it returns
    satisfies [Q]. *)
Definition spec (F : Frame) {A} (Q : A -> Prop) (m : M A) : Prop :=
  forall w, holds F w (snd (m w)) /\ forall a, fst (m w) = Ok a -> Q a.

(** The pauses of the script: at least 0.03 and less than 0.8 seconds. *)
Definition short_nap (d : Q) : Prop := ((3 # 100) <= d /\ d < (8 # 10))%Q.

(** The frame that relates any two worlds: what remains of [spec] is the
    property of the value returned. *)
Definition any_world : Frame :=
  {| holds := fun _ _ => True;
     holds_refl := fun _ => I;
     holds_trans := fun _ _ _ _ _ => I |}.

(** The frame of computations that make no request. *)
Definition same_http : Frame :=
  {| holds := fun w w' => forall n, http w' n = http w n;
     holds_refl := fun w n => eq_refl;
     holds_trans := fun a b c H1 H2 n => eq_trans (H2 n) (H1 n) |}.

(** The frame of computations that only add events to the trace, and
    among them only short pauses. *)
Definition nap_ok (e : Event) : Prop :=
  match e with
  | Slept d => short_nap d
  | _ => True
  end.

Definition short_naps_rel (w w' : World) : Prop :=
  exists evs, trace w' = (trace w ++ evs)%list /\ Forall nap_ok evs.

Definition short_naps : Frame.
Proof.
  refine {| holds := short_naps_rel |}.
  - intros w. exists []. split; [now rewrite app_nil_r | constructor].
  - intros a b c (e1 & T1 & F1) (e2 & T2 & F2). exists (e1 ++ e2)%list.
    split; [now rewrite T2, T1, app_assoc | now apply Forall_app].
Defined.

(** The number of positive multiples of [N] below [c]. *)
Definition multiples_below (N c : Z) : Z := (Z.max c 1 - 1) / N.

(** The events of [k] frames of the spinner, the first with glyph number
    [i], under the calendar [cal]. *)
Fixpoint spinner_events (k i : nat) (cal : nat -> datetime) : list Event :=
  match k with
  | O => []
  | S k' =>
      PrintedCR (strftime_ts (cal 0%nat) ++ " "
                 ++ nth (i mod 4) spinner_seq EmptyString ++ " working...")
      :: Slept (8 # 100)
      :: spinner_events k' (S i) (tl_stream cal)
  end.



(** The farewell line of [main]. *)
Definition farewell_text (env : Env) (ts : string) : string :=
  if COLOR env
  then String (ascii_of_nat 10)
         (colored env (ts ++ " [SYSTEM] Interrupted by user. Exiting.")
            Fore.CYAN)
  else String (ascii_of_nat 10)
         (ts ++ " [SYSTEM] Interrupted by user. Exiting.").

(** A first pass with no bar, no spinner and a quote due, while the
    request is interrupted from the keyboard. *)
Definition world_interrupt : World :=
  {| rng := stream_of [top; top; 0]%N 0%N;
     wall := fun n => inject_Z (Z.of_nat n);
     calendar := fun _ => morning;
     http := fun _ => GetRaises KeyboardInterrupt;
     trace := [] |}.


(** Printable ASCII: the codes 32 to 126. *)
Definition printable_char (c : ascii) : bool :=
  let n := nat_of_ascii c in (32 <=? n)%nat && (n <=? 126)%nat.

Fixpoint printable (s : string) : bool :=
  match s with
  | EmptyString => true
  | String c s' => printable_char c && printable s'
  end.

(** Every value among the keyword arguments is printable. *)
Definition printable_kwargs (kw : PyStr.kwargs) : Prop :=
  forall k v, PyStr.lookup kw k = Some v -> printable v = true.

(** [m] returns a value that satisfies [Q], or is cut off by its fuel, or
    raises an exception that [except Exception] does not catch. *)
Definition safe {A} (Q : A -> Prop) (m : M A) : Prop :=
  forall w,
    match fst (m w) with
    | Ok a => Q a
    | Raise e => is_Exception e = false
    | Pending => True
    end.

(** Four passes that each print a generated line. *)
Definition world_lines : World :=
  world_of (draws_line ++ draws_line ++ draws_line ++ draws_line)%list morning.

(** A computation that completes [k] lines whenever it returns. *)
Definition prints {A} (k : nat) (m : M A) : Prop :=
  forall w a w',
    m w = (Ok a, w') ->
    lines_printed (trace w') = (lines_printed (trace w) + k)%nat.

(** * Properties *)

(** ** Running computations *)

Lemma run_bind {A B} (m : M A) (k : A -> M B) w a w' :
  m w = (Ok a, w') -> bind m k w = k a w'.
Proof. intros H. unfold bind. now rewrite H. Qed.

Arguments run_bind {A B m} k {w a w'} _.

Lemma random_eq w : Random.random w = (Ok (u53 (rng w 0)), advance 1 0 w).
Proof. reflexivity. Qed.

Lemma chance_eq p w :
  chance p w = (Ok (Qlt_bool (u53 (rng w 0)) p), advance 1 0 w).
Proof. reflexivity. Qed.

Lemma choice_eq seq w : seq <> [] ->
  Random.choice seq w
  = (Ok (pick_at seq EmptyString (rng w 0)), advance 1 0 w).
Proof. destruct seq; [congruence|]. reflexivity. Qed.

Lemma draw_fields_eq w : draw_fields w = (Ok (fields_at w), advance 10 1 w).
Proof. reflexivity. Qed.

Lemma pick_at_In {A} (seq : list A) d n : seq <> [] -> In (pick_at seq d n) seq.
Proof.
  intros H. unfold pick_at. apply nth_In.
  assert (0 < List.length seq)%nat by (destruct seq; [congruence | simpl; lia]).
  assert (n mod N.of_nat (List.length seq) < N.of_nat (List.length seq))%N
    by (apply N.mod_lt; lia).
  lia.
Qed.

Lemma template_at_In n : In (template_at n) sentence_templates.
Proof. apply pick_at_In. discriminate. Qed.

(** Placeholder substitution succeeds on every template of the script. *)
Lemma fill_templates t f :
  In t sentence_templates -> fill t f = Some (filled t f).
Proof.
  intros H. unfold filled.
  assert (E : exists s, fill t f = Some s).
  { simpl in H.
    repeat (destruct H as [<- | H]; [eexists; reflexivity|]). contradiction. }
  destruct E as [s ->]. reflexivity.
Qed.

Lemma pick_eq t w : In t sentence_templates ->
  pick t w = (Ok (filled t (fields_at w)), advance 10 1 w).
Proof.
  intros H. unfold pick.
  rewrite (run_bind _ (draw_fields_eq w)).
  rewrite (fill_templates _ _ H). reflexivity.
Qed.

Lemma build_sentence_eq w :
  build_sentence w = (Ok (sentence_at w), after_sentence w).
Proof.
  unfold build_sentence, sentence_at, after_sentence.
  rewrite (run_bind _ (chance_eq CHAIN_CHANCE w)). fold (chain_at w).
  assert (T1 : Random.choice sentence_templates (advance 1 0 w)
               = (Ok (template_at (rng w 1)), advance 2 0 w)) by reflexivity.
  assert (T2 : Random.choice sentence_templates (advance 10 1 (advance 2 0 w))
               = (Ok (template_at (rng w 12)), advance 13 1 w)) by reflexivity.
  destruct (chain_at w);
    rewrite (run_bind _ T1);
    rewrite (run_bind _ (pick_eq _ (advance 2 0 w) (template_at_In _)));
    [|reflexivity].
  rewrite (run_bind _ T2).
  rewrite (run_bind _ (pick_eq _ (advance 13 1 w) (template_at_In _))).
  reflexivity.
Qed.

(** [generate] never raises: it returns the line [line_at] describes. *)
Lemma generate_eq w : generate w = (Ok (line_at w), after_line w).
Proof.
  unfold generate.
  rewrite (run_bind _ (build_sentence_eq w)).
  unfold line_at, after_line, cmd_at.
  set (w1 := after_sentence w).
  assert (L : Random.choices1 error_levels level_weights w1
              = (Ok (level_at (rng w1 0)), advance 1 0 w1)) by reflexivity.
  rewrite (run_bind _ L).
  assert (P : Random.randint 1000 99999 (advance 1 0 w1)
              = (Ok (1000 + Z.of_N (rng w1 1 mod 99000))%Z, advance 2 0 w1))
    by reflexivity.
  rewrite (run_bind _ P).
  assert (T : now_ts (advance 2 0 w1)
              = (Ok (strftime_ts (calendar w1 0)), advance 2 1 w1))
    by reflexivity.
  rewrite (run_bind _ T).
  rewrite (run_bind _ (chance_eq CMD_CHANCE (advance 2 1 w1))).
  change (rng (advance 2 1 w1) 0) with (rng w1 2).
  destruct (Qlt_bool (u53 (rng w1 2)) CMD_CHANCE); reflexivity.
Qed.

(** ** The sentence of the specification's example *)

(** C4: when the random source selects the adjective "optimized", the noun
    "cache", the verb "evicting" and the detail "rotating keys", filling
    the template "The {adj} {noun} {verb} {detail}." yields exactly
    "The optimized cache evicting rotating keys.". *)
Theorem pick_example w f w' :
  draw_fields w = (Ok f, w') ->
  f_adj f = "optimized" -> f_noun f = "cache" ->
  f_verb f = "evicting" -> f_detail f = "rotating keys" ->
  pick "The {adj} {noun} {verb} {detail}." w
  = (Ok "The optimized cache evicting rotating keys.", w').
Proof.
  intros D Ha Hn Hv Hd. unfold pick.
  rewrite (run_bind _ D).
  destruct f; simpl in Ha, Hn, Hv, Hd; subst.
  reflexivity.
Qed.

Lemma pick_example_witness :
  pick "The {adj} {noun} {verb} {detail}." world_keys
  = (Ok "The optimized cache evicting rotating keys.",
     advance 10 1 world_keys).
Proof.
  apply (pick_example world_keys (fields_at world_keys));
    reflexivity.
Defined.

(** ** The process id *)

(** C2, as the code has it: the process id of every generated line is an
    integer in the closed interval from 1000 to 99999, and [generate]
    always returns a line. *)
Theorem pid_closed_range w :
  exists l w', generate w = (Ok l, w') /\ (1000 <= ll_pid l <= 99999)%Z.
Proof.
  exists (line_at w), (after_line w). split; [apply generate_eq|].
  unfold line_at; cbn [ll_pid].
  assert (H : (rng (after_sentence w) 1 mod 99000 < 99000)%N)
    by (apply N.mod_lt; discriminate).
  remember (rng (after_sentence w) 1 mod 99000)%N as r. lia.
Qed.

(** C2 as stated fails: the world [world_pid_max] generates a line whose
    process id is 99999, which the half-open interval excludes. *)
Lemma pid_half_open_fails :
  exists l w',
    generate world_pid_max = (Ok l, w') /\ ll_pid l = 99999%Z
    /\ ~ pid_half_open l.
Proof.
  exists (line_at world_pid_max), (after_line world_pid_max).
  split; [apply generate_eq|].
  split; [reflexivity|].
  unfold pid_half_open. vm_compute. intros [_ H]. discriminate H.
Qed.

(** ** How a line ends *)

Lemma append_assoc (a b c : string) : (a ++ b) ++ c = a ++ (b ++ c).
Proof. induction a as [|x a IH]; simpl; [reflexivity | now rewrite IH]. Qed.

Lemma append_nil_r (a : string) : a ++ EmptyString = a.
Proof. induction a as [|x a IH]; simpl; [reflexivity | now rewrite IH]. Qed.

Lemma last_char_cons c s x :
  PyStr.last_char s = Some x -> PyStr.last_char (String c s) = Some x.
Proof. destruct s; [discriminate | auto]. Qed.

Lemma last_char_app a b x :
  PyStr.last_char b = Some x -> PyStr.last_char (a ++ b) = Some x.
Proof.
  intros H. induction a as [|c a IH]; [exact H|].
  simpl append. now apply last_char_cons.
Qed.

Lemma last_char_snoc s c : PyStr.last_char (PyStr.snoc s c) = Some c.
Proof. unfold PyStr.snoc. now apply last_char_app. Qed.

Lemma last_char_inv s c :
  PyStr.last_char s = Some c -> exists s0, s = PyStr.snoc s0 c.
Proof.
  induction s as [|a s IH]; [discriminate|].
  destruct s as [|b s].
  - intros [= <-]. now exists EmptyString.
  - intros H. destruct (IH H) as [s0 E]. exists (String a s0).
    unfold PyStr.snoc in *. simpl append. now rewrite <- E.
Qed.

Lemma last_char_lower s :
  PyStr.last_char (PyStr.lower s)
  = option_map PyStr.lower_char (PyStr.last_char s).
Proof.
  induction s as [|a s IH]; [reflexivity|].
  destruct s as [|b s]; [reflexivity|].
  exact IH.
Qed.

(** A template that ends in a literal character other than a brace
    formats to a text that ends in the same character. *)
Lemma format_from_last kw c :
  (c =? "{")%char = false -> (c =? "}")%char = false ->
  forall n t st r, (String.length t <= n)%nat ->
    PyStr.format_from kw st (PyStr.snoc t c) = Some r ->
    PyStr.last_char r = Some c.
Proof.
  intros Ho Hc. unfold PyStr.snoc.
  assert (Base : forall st r,
             PyStr.format_from kw st (String c EmptyString) = Some r ->
             PyStr.last_char r = Some c).
  { intros [name|] r; simpl; rewrite ?Ho, ?Hc.
    - destruct (PyStr.field_special c); discriminate.
    - now intros [= <-]. }
  induction n as [|n IH]; intros t st r Hlen H.
  - destruct t; [now apply (Base st) | simpl in Hlen; lia].
  - destruct t as [|a t']; [now apply (Base st)|].
    simpl in Hlen. destruct st as [name|].
    + simpl in H. destruct (a =? "}")%char.
      * destruct (PyStr.lookup kw name) as [v|]; [|discriminate].
        destruct (PyStr.format_from kw None (t' ++ String c EmptyString))
          as [r'|] eqn:E; [|discriminate].
        injection H as <-. apply last_char_app.
        apply (IH t' None); [lia | exact E].
      * destruct (PyStr.field_special a); [discriminate|].
        apply (IH t' (Some (PyStr.snoc name a))); [lia | exact H].
    + cbn [PyStr.format_from append] in H.
      destruct (a =? "{")%char.
      * destruct t' as [|b t''].
        -- simpl in H. destruct (c =? "{")%char; [discriminate Ho|].
           now apply (Base (Some EmptyString)).
        -- cbn [append] in H. destruct (b =? "{")%char.
           ++ destruct (PyStr.format_from kw None (t'' ++ String c EmptyString))
                as [r'|] eqn:E; [|discriminate].
              injection H as <-. apply last_char_cons.
              simpl in Hlen. apply (IH t'' None); [lia | exact E].
           ++ apply (IH (String b t'') (Some EmptyString)); [lia | exact H].
      * destruct (a =? "}")%char.
        -- destruct t' as [|b t''].
           ++ simpl in H. rewrite Hc in H. discriminate.
           ++ cbn [append] in H. destruct (b =? "}")%char; [|discriminate].
              destruct (PyStr.format_from kw None (t'' ++ String c EmptyString))
                as [r'|] eqn:E; [|discriminate].
              injection H as <-. apply last_char_cons.
              simpl in Hlen. apply (IH t'' None); [lia | exact E].
        -- destruct (PyStr.format_from kw None (t' ++ String c EmptyString))
             as [r'|] eqn:E; [|discriminate].
           injection H as <-. apply last_char_cons.
           apply (IH t' None); [lia | exact E].
Qed.

Lemma fill_ends_with_dot t f s :
  PyStr.last_char t = Some "."%char -> fill t f = Some s ->
  PyStr.last_char s = Some "."%char.
Proof.
  intros Ht Hf. destruct (last_char_inv _ _ Ht) as [t0 ->].
  unfold fill, PyStr.format in Hf.
  exact (format_from_last (kwargs_of f) "."%char eq_refl eq_refl
           (String.length t0) t0 None s (le_n _) Hf).
Qed.

Lemma sentence_ends_with_dot w :
  PyStr.last_char (last (fst (sentence_at w)) EmptyString) = Some "."%char ->
  PyStr.last_char (snd (sentence_at w)) = Some "."%char.
Proof.
  unfold sentence_at. destruct (chain_at w); cbn [fst snd last]; intros H.
  - apply last_char_app, last_char_app.
    rewrite last_char_lower.
    rewrite (fill_ends_with_dot _ _ _ H (fill_templates _ _ (template_at_In _))).
    reflexivity.
  - exact (fill_ends_with_dot _ _ _ H (fill_templates _ _ (template_at_In _))).
Qed.

(** C1, as the code has it: a generated line without a trailing command
    fragment whose (last) sentence template ends in a full stop, as nine
    of the ten templates do, ends in that full stop; this covers lines
    built from two templates, the second of them lower-cased. *)
Theorem line_ends_with_template_punctuation w l w' :
  generate w = (Ok l, w') ->
  ll_cmd l = None ->
  PyStr.last_char (last (ll_templates l) EmptyString) = Some "."%char ->
  PyStr.last_char (log_line_text l) = Some "."%char.
Proof.
  rewrite generate_eq. intros [= <- _] Hcmd Ht.
  unfold log_line_text. rewrite Hcmd. cbn [cmd_suffix].
  rewrite append_nil_r.
  repeat apply last_char_app.
  apply sentence_ends_with_dot. exact Ht.
Qed.

Lemma line_ends_with_template_punctuation_witness :
  PyStr.last_char (log_line_text (line_at world_chain)) = Some "."%char.
Proof.
  apply (line_ends_with_template_punctuation world_chain
           (line_at world_chain) (after_line world_chain)).
  - apply generate_eq.
  - reflexivity.
  - reflexivity.
Defined.

(** C1 as stated fails in two ways.  In [world_cmd] the template ends in a
    full stop but the line ends in the command fragment appended after it.
    In [world_reported] the template is the one that ends in a placeholder,
    and the line ends in the detail phrase: neither in a full stop nor in
    the colon that the template embeds. *)
Lemma line_punctuation_fails :
  (exists l w',
      generate world_cmd = (Ok l, w')
      /\ ll_templates l = ["The {adj} {noun} {verb} {detail}."]
      /\ log_line_text l
         = "2026-11-03 09:05:07 [INFO] (pid:1000) The optimized cache evicting rotating keys.  cmd: run-migration"
      /\ PyStr.endswith (log_line_text l) "." = false
      /\ PyStr.last_char (log_line_text l) = Some "n"%char)
  /\
  (exists l w',
      generate world_reported = (Ok l, w')
      /\ ll_templates l = ["{system} reported: {detail}"]
      /\ ll_cmd l = None
      /\ log_line_text l
         = "2026-11-03 09:05:07 [INFO] (pid:1000) auth service reported: rotating keys"
      /\ PyStr.endswith (log_line_text l) "." = false
      /\ PyStr.endswith (log_line_text l) ":" = false
      /\ PyStr.last_char (log_line_text l) = Some "s"%char).
Proof.
  split.
  - exists (line_at world_cmd), (after_line world_cmd).
    split; [apply generate_eq|]. repeat split; reflexivity.
  - exists (line_at world_reported), (after_line world_reported).
    split; [apply generate_eq|]. repeat split; reflexivity.
Qed.

(** ** The algorithm of the line generator *)

Lemma Qlt_bool_iff x y : Qlt_bool x y = true <-> (x < y)%Q.
Proof.
  unfold Qlt_bool. rewrite negb_true_iff.
  split.
  - intros H. apply Qnot_le_lt. intros L.
    apply Qle_bool_iff in L. congruence.
  - intros H. destruct (Qle_bool y x) eqn:E; [|reflexivity].
    apply Qle_bool_iff in E. exfalso. exact (Qlt_not_le _ _ H E).
Qed.









(** ** Determinism of the generator *)

Lemma same_inputs_advance a b w1 w2 :
  same_inputs w1 w2 -> same_inputs (advance a b w1) (advance a b w2).
Proof.
  intros [Hr Hc]. split; intros n; cbn [advance rng calendar]; auto.
Qed.

Lemma same_second_hms d1 d2 :
  same_second d1 d2 -> strftime_hms d1 = strftime_hms d2.
Proof.
  intros (_ & _ & _ & Hh & Hm & Hs). unfold strftime_hms.
  now rewrite Hh, Hm, Hs.
Qed.

Lemma same_second_ts d1 d2 :
  same_second d1 d2 -> strftime_ts d1 = strftime_ts d2.
Proof.
  intros H. pose proof (same_second_hms _ _ H) as E.
  destruct H as (Hy & Hmo & Hd & _). unfold strftime_ts.
  now rewrite Hy, Hmo, Hd, E.
Qed.

Lemma same_inputs_kwargs w1 w2 :
  same_inputs w1 w2 -> kwargs_of (fields_at w1) = kwargs_of (fields_at w2).
Proof.
  intros [Hr Hc]. unfold kwargs_of, fields_at.
  cbn [f_adj f_verb f_verb_cap f_noun f_system f_num f_pct f_ms f_status
       f_detail f_time].
  rewrite !Hr, (same_second_hms _ _ (Hc 0%nat)). reflexivity.
Qed.

Lemma same_inputs_filled t w1 w2 :
  same_inputs w1 w2 -> filled t (fields_at w1) = filled t (fields_at w2).
Proof.
  intros H. unfold filled, fill. now rewrite (same_inputs_kwargs _ _ H).
Qed.

Lemma same_inputs_chain w1 w2 :
  same_inputs w1 w2 -> chain_at w1 = chain_at w2.
Proof. intros [Hr _]. unfold chain_at. now rewrite Hr. Qed.

Lemma same_inputs_sentence w1 w2 :
  same_inputs w1 w2 -> sentence_at w1 = sentence_at w2.
Proof.
  intros H. unfold sentence_at.
  rewrite (same_inputs_chain _ _ H).
  rewrite (same_inputs_filled _ _ _ (same_inputs_advance 2 0 _ _ H)).
  rewrite (same_inputs_filled _ _ _ (same_inputs_advance 13 1 _ _ H)).
  destruct H as [Hr _]. now rewrite !Hr.
Qed.

Lemma same_inputs_after_sentence w1 w2 :
  same_inputs w1 w2 -> same_inputs (after_sentence w1) (after_sentence w2).
Proof.
  intros H. unfold after_sentence. rewrite (same_inputs_chain _ _ H).
  destruct (chain_at w2); now apply same_inputs_advance.
Qed.

Lemma same_inputs_line w1 w2 :
  same_inputs w1 w2 -> line_at w1 = line_at w2.
Proof.
  intros H. unfold line_at, cmd_at.
  rewrite (same_inputs_sentence _ _ H).
  destruct (same_inputs_after_sentence _ _ H) as [Hr Hc].
  now rewrite !Hr, (same_second_ts _ _ (Hc 0%nat)).
Qed.

(** C5, as the code has it: the generated line is a function of the state
    of the random source and of the calendar readings down to the second.
    Two runs that agree on both produce the same line, whatever else
    differs between them. *)
Theorem generate_deterministic w1 w2 :
  same_inputs w1 w2 ->
  exists l w1' w2',
    generate w1 = (Ok l, w1') /\ generate w2 = (Ok l, w2').
Proof.
  intros H. exists (line_at w1), (after_line w1), (after_line w2).
  split; [apply generate_eq|].
  rewrite (same_inputs_line _ _ H). apply generate_eq.
Qed.

Lemma generate_deterministic_witness :
  exists l w1' w2',
    generate world_cmd = (Ok l, w1')
    /\ generate world_cmd_later = (Ok l, w2').
Proof.
  apply (generate_deterministic world_cmd world_cmd_later).
  split; intros n; [reflexivity|].
  repeat split; reflexivity.
Defined.

(** C5 as stated fails: [world_cmd] and [world_cmd_evening] have the same
    random source, and the lines they generate differ in the timestamp. *)
Lemma same_seed_different_lines :
  (forall n, rng world_cmd n = rng world_cmd_evening n)
  /\ exists l1 l2 w1' w2',
       generate world_cmd = (Ok l1, w1')
       /\ generate world_cmd_evening = (Ok l2, w2')
       /\ log_line_text l1
          = "2026-11-03 09:05:07 [INFO] (pid:1000) The optimized cache evicting rotating keys.  cmd: run-migration"
       /\ log_line_text l2
          = "2026-11-03 21:40:12 [INFO] (pid:1000) The optimized cache evicting rotating keys.  cmd: run-migration"
       /\ log_line_text l1 <> log_line_text l2.
Proof.
  split; [reflexivity|].
  exists (line_at world_cmd), (line_at world_cmd_evening),
    (after_line world_cmd), (after_line world_cmd_evening).
  split; [apply generate_eq|].
  split; [apply generate_eq|].
  split; [reflexivity|].
  split; [reflexivity|].
  vm_compute. discriminate.
Qed.

(** ** Failures of the remote fetch *)

Lemma emit_log_line_eq env c w :
  emit_log_line env c w = (Ok (c + 1)%Z, after_emit env w).
Proof.
  unfold emit_log_line.
  rewrite (run_bind _ (generate_eq w)).
  unfold after_emit, printed_line.
  destruct (COLOR env); reflexivity.
Qed.

Lemma trace_after_emit env w :
  trace (after_emit env w)
  = (trace w ++ [Printed (printed_line env (line_at w));
                 Slept (pause_at (after_line w))])%list.
Proof.
  unfold after_emit. cbn [logged advance trace].
  assert (E : trace (after_line w) = trace w).
  { unfold after_line, after_sentence.
    destruct (cmd_at w), (chain_at w); reflexivity. }
  rewrite E, <- app_assoc. reflexivity.
Qed.

Lemma fetch_quote_fails env w :
  fetch_fails env (http w 0) ->
  fetch_quote env w
  = (Ok None, if have_requests env then after_request w else w).
Proof.
  unfold fetch_quote, try_except, bind, requests_get.
  fold (after_request w).
  intros [H | [(e & E & He) | [(r & E & Hs) | (r & E & Hs & Hb)]]].
  - rewrite H. reflexivity.
  - destruct (have_requests env); [|reflexivity]. cbn [negb].
    rewrite E, He. reflexivity.
  - destruct (have_requests env); [|reflexivity]. cbn [negb].
    rewrite E. apply Z.eqb_neq in Hs. rewrite Hs. reflexivity.
  - destruct (have_requests env); [|reflexivity]. cbn [negb].
    rewrite E. apply Z.eqb_eq in Hs. rewrite Hs.
    destruct Hb as [-> | ->]; reflexivity.
Qed.

(** C7: whenever the fetch fails (no [requests], an exception raised by
    the request, a status other than 200, a body that is not JSON or not
    an object), [fetch_quote] raises nothing and returns [None], printing
    nothing; and the driver then prints a line that [generate] built. *)
Theorem fetch_failure_falls_back env use_api c w :
  fetch_fails env (http w 0) ->
  (exists w', fetch_quote env w = (Ok None, w') /\ trace w' = trace w)
  /\ (exists w0 l w1 d w',
         generate w0 = (Ok l, w1)
         /\ quote_or_line env use_api c w = (Ok (c + 1)%Z, w')
         /\ trace w'
            = (trace w ++ [Printed (printed_line env l); Slept d])%list).
Proof.
  intros F. split.
  - rewrite (fetch_quote_fails _ _ F).
    eexists; split; [reflexivity|]. destruct (have_requests env); reflexivity.
  - unfold quote_or_line, and_then.
    destruct (use_api && have_requests env) eqn:U.
    + apply andb_true_iff in U. destruct U as [_ U].
      rewrite (run_bind _ (chance_eq API_QUOTE_FREQ w)).
      destruct (Qlt_bool (u53 (rng w 0)) API_QUOTE_FREQ).
      * assert (F' : fetch_fails env (http (advance 1 0 w) 0)) by exact F.
        rewrite (run_bind _ (fetch_quote_fails _ _ F')). rewrite U.
        cbn [truthy].
        exists (after_request (advance 1 0 w)),
          (line_at (after_request (advance 1 0 w))),
          (after_line (after_request (advance 1 0 w))),
          (pause_at (after_line (after_request (advance 1 0 w)))),
          (after_emit env (after_request (advance 1 0 w))).
        split; [apply generate_eq|].
        split; [apply emit_log_line_eq|].
        exact (trace_after_emit env (after_request (advance 1 0 w))).
      * unfold bind, ret. cbn [truthy].
        exists (advance 1 0 w), (line_at (advance 1 0 w)),
          (after_line (advance 1 0 w)),
          (pause_at (after_line (advance 1 0 w))),
          (after_emit env (advance 1 0 w)).
        split; [apply generate_eq|].
        split; [apply emit_log_line_eq|].
        exact (trace_after_emit env (advance 1 0 w)).
    + unfold bind, ret. cbn [truthy].
      exists w, (line_at w), (after_line w), (pause_at (after_line w)),
        (after_emit env w).
      split; [apply generate_eq|].
      split; [apply emit_log_line_eq|].
      apply trace_after_emit.
Qed.

Lemma fetch_failure_falls_back_witness :
  (exists w',
      fetch_quote env_plain world_timeout = (Ok None, w')
      /\ trace w' = trace world_timeout)
  /\ (exists w0 l w1 d w',
         generate w0 = (Ok l, w1)
         /\ quote_or_line env_plain true 0%Z world_timeout = (Ok (0 + 1)%Z, w')
         /\ trace w'
            = (trace world_timeout
               ++ [Printed (printed_line env_plain l); Slept d])%list).
Proof.
  apply (fetch_failure_falls_back env_plain true 0%Z world_timeout).
  right. left. exists ReadTimeout. split; reflexivity.
Defined.

(** ** The progress bar *)

Lemma progress_loop_step env fuel start duration width w :
  Qeq_bool duration 0 = false ->
  progress_loop env (S fuel) start duration width w
  = if Qle_bool 1 (frac_at start duration w)
    then (Ok tt, after_frame env start duration width w)
    else progress_loop env fuel start duration width
           (logged (nap_at w)
              (advance 1 0 (after_frame env start duration width w))).
Proof.
  intros D. cbn [progress_loop].
  assert (T : time_time w = (Ok (wall w 0), after_time w)) by reflexivity.
  rewrite (run_bind _ T). rewrite D.
  fold (frac_at start duration w).
  destruct (Qle_bool 1 (frac_at start duration w)) eqn:E.
  - reflexivity.
  - reflexivity.
Qed.

Lemma py_int_lt q (k : Z) : (q < inject_Z k)%Q -> (0 < k)%Z -> (py_int q < k)%Z.
Proof.
  destruct q as [a b]. unfold Qlt, py_int. cbn [Qnum Qden inject_Z].
  intros H K. rewrite Z.mul_1_r in H.
  destruct (Z.lt_ge_cases a 0) as [N | P].
  - pose proof (Z.quot_le_mono a 0 (Z.pos b) (Pos2Z.is_pos b)) as M.
    rewrite Z.quot_0_l in M by discriminate. lia.
  - apply Z.quot_lt_upper_bound; lia.
Qed.

Lemma frac_full start duration w :
  Qle_bool 1 (frac_at start duration w) = true ->
  bar_pct (frac_at start duration w) = 100%Z.
Proof.
  unfold frac_at, py_min.
  destruct (Qlt_bool ((wall w 0 - start) / duration) 1) eqn:E;
    [|reflexivity].
  intros L. exfalso.
  apply Qlt_bool_iff in E. apply Qle_bool_iff in L.
  exact (Qlt_not_le _ _ E L).
Qed.

Lemma frac_partial start duration w :
  Qle_bool 1 (frac_at start duration w) = false ->
  (bar_pct (frac_at start duration w) < 100)%Z.
Proof.
  intros L. unfold bar_pct. apply py_int_lt; [|lia].
  assert (F : (frac_at start duration w < 1)%Q).
  { apply Qnot_le_lt. intros H. apply Qle_bool_iff in H. congruence. }
  change (inject_Z 100) with (1 * 100)%Q.
  apply Qmult_lt_r; [reflexivity | exact F].
Qed.

Lemma frac_reached start duration w :
  (0 < duration)%Q -> (duration <= wall w 0 - start)%Q ->
  Qle_bool 1 (frac_at start duration w) = true.
Proof.
  intros D H. unfold frac_at, py_min.
  destruct (Qlt_bool ((wall w 0 - start) / duration) 1) eqn:E;
    [|reflexivity].
  exfalso. apply Qlt_bool_iff in E.
  apply (Qlt_not_le _ _ E).
  apply Qle_shift_div_l; [exact D|]. now rewrite Qmult_1_l.
Qed.

Lemma positive_not_zero q : (0 < q)%Q -> Qeq_bool q 0 = false.
Proof.
  intros H. destruct (Qeq_bool q 0) eqn:E; [|reflexivity].
  apply Qeq_bool_iff in E. rewrite E in H. discriminate H.
Qed.

(** The loop stops at the first reading that is [duration] after the
    start, and no later than the reading [k] that is known to be. *)
Lemma progress_loop_runs env start duration width k :
  (0 < duration)%Q ->
  forall w fuel,
    (duration <= wall w k - start)%Q -> (k < fuel)%nat ->
    exists pcts evs w',
      progress_loop env fuel start duration width w = (Ok tt, w')
      /\ trace w' = (trace w ++ evs)%list
      /\ rendered env width pcts evs
      /\ Forall (fun p => (p < 100)%Z) (removelast pcts)
      /\ last pcts 0%Z = 100%Z.
Proof.
  intros D. pose proof (positive_not_zero _ D) as D0.
  induction k as [|k IH]; intros w fuel H F;
    (destruct fuel as [|fuel]; [lia|]);
    rewrite (progress_loop_step _ _ _ _ _ _ D0);
    destruct (Qle_bool 1 (frac_at start duration w)) eqn:E.
  - exists [bar_pct (frac_at start duration w)],
      [frame_at env start duration width w; Flushed],
      (after_frame env start duration width w).
    split; [reflexivity|]. split.
    { unfold after_frame. cbn [logged trace advance after_time].
      now rewrite <- app_assoc. }
    split; [apply rendered_last|].
    split; [constructor|]. cbn [last]. now apply frac_full.
  - rewrite (frac_reached _ _ _ D H) in E. discriminate.
  - exists [bar_pct (frac_at start duration w)],
      [frame_at env start duration width w; Flushed],
      (after_frame env start duration width w).
    split; [reflexivity|]. split.
    { unfold after_frame. cbn [logged trace advance after_time].
      now rewrite <- app_assoc. }
    split; [apply rendered_last|].
    split; [constructor|]. cbn [last]. now apply frac_full.
  - set (w1 := logged (nap_at w)
                 (advance 1 0 (after_frame env start duration width w))).
    destruct (IH w1 fuel) as (pcts & evs & w' & R & T & Rd & Fa & La);
      [exact H | lia |].
    exists (bar_pct (frac_at start duration w) :: pcts),
      (frame_at env start duration width w :: Flushed :: nap_at w :: evs), w'.
    split; [exact R|]. split.
    { rewrite T. unfold w1, after_frame.
      cbn [logged trace advance after_time].
      now rewrite <- !app_assoc. }
    split; [now apply rendered_more|].
    assert (P : pcts <> []) by (destruct Rd; discriminate).
    split.
    + destruct pcts as [|p pcts]; [congruence|].
      cbn [removelast]. constructor; [now apply frac_partial | exact Fa].
    + destruct pcts as [|p pcts]; [congruence|]. exact La.
Qed.

Lemma frame_never_exceeds_100 start duration w :
  (bar_pct (frac_at start duration w) <= 100)%Z.
Proof.
  destruct (Qle_bool 1 (frac_at start duration w)) eqn:E.
  - rewrite (frac_full _ _ _ E). lia.
  - pose proof (frac_partial _ _ _ E). lia.
Qed.

(** The durations that the driver passes to the bar are positive. *)
Lemma bar_duration_positive w :
  exists d w',
    Random.uniform (8 # 10) (25 # 10) w = (Ok d, w') /\ (0 < d)%Q.
Proof.
  exists ((8 # 10) + ((25 # 10) - (8 # 10)) * u53 (rng w 0))%Q, (advance 1 0 w).
  split; [reflexivity|].
  apply Qlt_le_trans with (8 # 10)%Q; [reflexivity|].
  rewrite <- Qplus_0_r at 1. apply Qplus_le_r.
  apply Qmult_le_0_compat; [discriminate|].
  unfold u53, Qle. cbn [Qnum Qden].
  generalize (rng w 0 mod Random.two53)%N. intros m. lia.
Qed.

Lemma count_below_100 pcts :
  Forall (fun p => (p < 100)%Z) pcts -> count_occ Z.eq_dec pcts 100%Z = 0%nat.
Proof.
  induction 1 as [|p pcts H _ IH]; [reflexivity|].
  cbn [count_occ]. destruct (Z.eq_dec p 100); [lia | exact IH].
Qed.

(** C6: an invocation of the progress bar with a positive duration, as
    every invocation of the driver has, under a wall clock that gets
    [duration] past the start, returns after drawing frames of which
    exactly one shows 100%, the last one, and none shows more than 100%. *)
Theorem progress_bar_reaches_100_once env duration width w k :
  (0 < duration)%Q ->
  (duration <= wall w (S k) - wall w 0)%Q ->
  forall fuel, (k < fuel)%nat ->
    exists pcts evs w',
      progress_bar_simulation env fuel duration width w = (Ok tt, w')
      /\ trace w' = (trace w ++ evs ++ [Printed EmptyString])%list
      /\ rendered env width pcts evs
      /\ Forall (fun p => (p <= 100)%Z) pcts
      /\ count_occ Z.eq_dec pcts 100%Z = 1%nat
      /\ last pcts 0%Z = 100%Z.
Proof.
  intros D H fuel F. unfold progress_bar_simulation.
  assert (T : time_time w = (Ok (wall w 0), after_time w)) by reflexivity.
  rewrite (run_bind _ T).
  destruct (progress_loop_runs env (wall w 0) duration width k D
              (after_time w) fuel H F)
    as (pcts & evs & w' & R & Tr & Rd & Fa & La).
  exists pcts, evs, (logged (Printed EmptyString) w').
  split; [rewrite (run_bind _ R); reflexivity|].
  split; [cbn [logged trace]; rewrite Tr, <- app_assoc; reflexivity|].
  split; [exact Rd|].
  assert (P : pcts <> []) by (destruct Rd; discriminate).
  rewrite (app_removelast_last 0%Z P), La.
  split.
  - apply Forall_app. split; [|repeat constructor; lia].
    eapply Forall_impl; [|exact Fa]. cbn. lia.
  - split.
    + rewrite count_occ_app, (count_below_100 _ Fa). reflexivity.
    + apply last_last.
Qed.

Lemma progress_bar_reaches_100_once_witness :
  exists pcts evs w',
    progress_bar_simulation env_plain 2 (3 # 2) 30 world_bar = (Ok tt, w')
    /\ trace w' = (trace world_bar ++ evs ++ [Printed EmptyString])%list
    /\ rendered env_plain 30 pcts evs
    /\ Forall (fun p => (p <= 100)%Z) pcts
    /\ count_occ Z.eq_dec pcts 100%Z = 1%nat
    /\ last pcts 0%Z = 100%Z.
Proof.
  apply (progress_bar_reaches_100_once env_plain (3 # 2) 30 world_bar 1).
  - reflexivity.
  - discriminate.
  - lia.
Defined.

(** ** Clearing the screen *)

Lemma clears_app t1 t2 : clears (t1 ++ t2) = (clears t1 + clears t2)%nat.
Proof. unfold clears. now rewrite filter_app, length_app. Qed.

Lemma quiet_ret {A} (a : A) : quiet (ret a).
Proof. intros w. reflexivity. Qed.

Lemma quiet_raise {A} e : quiet (@raise A e).
Proof. intros w. reflexivity. Qed.

Lemma quiet_pending {A} : quiet (@pending A).
Proof. intros w. reflexivity. Qed.

Lemma quiet_bind {A B} (m : M A) (k : A -> M B) :
  quiet m -> (forall a, quiet (k a)) -> quiet (bind m k).
Proof.
  intros Hm Hk w. unfold bind. specialize (Hm w).
  destruct (m w) as [[a | e |] w1]; cbn [snd] in *; [|assumption..].
  rewrite <- Hm. apply Hk.
Qed.

Lemma quiet_try_except {A} (m h : M A) :
  quiet m -> quiet h -> quiet (try_except m h).
Proof.
  intros Hm Hh w. unfold try_except. specialize (Hm w).
  destruct (m w) as [[a | e |] w1]; cbn [snd] in *; [assumption| |assumption].
  destruct (is_Exception e); [|assumption].
  rewrite <- Hm. apply Hh.
Qed.

Lemma quiet_emit e : is_clear e = false -> quiet (emit e).
Proof.
  intros H w. unfold emit. cbn [snd trace].
  rewrite clears_app. unfold clears at 2. cbn [filter]. rewrite H.
  cbn [List.length]. lia.
Qed.

Lemma quiet_rng_next : quiet rng_next.
Proof. intros w. reflexivity. Qed.

Lemma quiet_time_time : quiet time_time.
Proof. intros w. reflexivity. Qed.

Lemma quiet_datetime_now : quiet datetime_now.
Proof. intros w. reflexivity. Qed.

Lemma quiet_requests_get : quiet requests_get.
Proof. intros w. reflexivity. Qed.

Lemma quiet_print s : quiet (print s).
Proof. now apply quiet_emit. Qed.

Lemma quiet_print_cr s : quiet (print_cr s).
Proof. now apply quiet_emit. Qed.

Lemma quiet_flush : quiet flush.
Proof. now apply quiet_emit. Qed.

Lemma quiet_sleep d : quiet (sleep d).
Proof. now apply quiet_emit. Qed.

Create HintDb quiet.
#[export] Hint Resolve quiet_ret quiet_raise quiet_pending quiet_rng_next
  quiet_time_time quiet_datetime_now quiet_requests_get quiet_print
  quiet_print_cr quiet_flush quiet_sleep : quiet.

Ltac quiet_step :=
  match goal with
  | |- quiet (bind _ _) => apply quiet_bind; [| intros ?]
  | |- quiet (try_except _ _) => apply quiet_try_except
  | |- quiet (if ?b then _ else _) => destruct b
  | |- quiet (match ?x with _ => _ end) => destruct x
  | |- quiet _ => solve [auto with quiet]
  end.

Ltac quiet_tac := repeat quiet_step.

Lemma quiet_random : quiet Random.random.
Proof. unfold Random.random. quiet_tac. Qed.

Lemma quiet_randbelow n : quiet (Random.randbelow n).
Proof. unfold Random.randbelow. quiet_tac. Qed.
#[export] Hint Resolve quiet_random quiet_randbelow : quiet.

Lemma quiet_choice seq : quiet (Random.choice seq).
Proof. unfold Random.choice. quiet_tac. Qed.

Lemma quiet_randint a b : quiet (Random.randint a b).
Proof. unfold Random.randint. quiet_tac. Qed.

Lemma quiet_uniform a b : quiet (Random.uniform a b).
Proof. unfold Random.uniform. quiet_tac. Qed.

Lemma quiet_choices1 p ws : quiet (Random.choices1 p ws).
Proof. unfold Random.choices1. quiet_tac. Qed.

Lemma quiet_chance p : quiet (chance p).
Proof. unfold chance. quiet_tac. Qed.

Lemma quiet_now_ts : quiet now_ts.
Proof. unfold now_ts. quiet_tac. Qed.
#[export] Hint Resolve quiet_choice quiet_randint quiet_uniform quiet_choices1
  quiet_chance quiet_now_ts : quiet.

Lemma quiet_pick t : quiet (pick t).
Proof. unfold pick, draw_fields. quiet_tac. Qed.
#[export] Hint Resolve quiet_pick : quiet.

Lemma quiet_generate : quiet generate.
Proof. unfold generate, build_sentence. quiet_tac. Qed.
#[export] Hint Resolve quiet_generate : quiet.

Lemma quiet_emit_log_line env c : quiet (emit_log_line env c).
Proof. unfold emit_log_line. quiet_tac. Qed.

Lemma quiet_fetch_quote env : quiet (fetch_quote env).
Proof. unfold fetch_quote, quote_of_body. quiet_tac. Qed.
#[export] Hint Resolve quiet_emit_log_line quiet_fetch_quote : quiet.

Lemma quiet_quote_or_line env use_api c : quiet (quote_or_line env use_api c).
Proof. unfold quote_or_line, and_then. quiet_tac. Qed.

Lemma quiet_progress_loop env fuel start duration width :
  quiet (progress_loop env fuel start duration width).
Proof.
  induction fuel as [|fuel IH]; cbn [progress_loop]; quiet_tac.
Qed.

Lemma quiet_spinner_loop fuel t0 duration i :
  quiet (spinner_loop fuel t0 duration i).
Proof.
  revert i. induction fuel as [|fuel IH]; intros i; cbn [spinner_loop];
    quiet_tac.
Qed.
#[export] Hint Resolve quiet_quote_or_line quiet_progress_loop
  quiet_spinner_loop : quiet.

Lemma quiet_progress_bar env fuel duration width :
  quiet (progress_bar_simulation env fuel duration width).
Proof. unfold progress_bar_simulation. quiet_tac. Qed.

Lemma quiet_spinner fuel duration : quiet (spinner fuel duration).
Proof. unfold spinner. quiet_tac. Qed.
#[export] Hint Resolve quiet_progress_bar quiet_spinner : quiet.

(** A pass through the loop clears the screen only by its guard. *)
Lemma quiet_iteration env use_api clear_every fuel c :
  should_clear clear_every c = false ->
  quiet (iteration env use_api clear_every fuel c).
Proof.
  intros H. unfold iteration, maybe_clear, and_then. rewrite H. quiet_tac.
Qed.

Lemma quiet_main_loop env use_api clear_every fuel n :
  (forall c, should_clear clear_every c = false) ->
  forall c, quiet (main_loop env use_api clear_every fuel n c).
Proof.
  intros H. induction n as [|n IH]; intros c; cbn [main_loop].
  - apply quiet_ret.
  - apply quiet_bind; [now apply quiet_iteration | exact IH].
Qed.

Lemma quiet_farewell env : quiet (farewell env).
Proof. unfold farewell. quiet_tac. Qed.

Lemma quiet_main env use_api clear_every fuel n :
  (forall c, should_clear clear_every c = false) ->
  quiet (main env use_api clear_every fuel n).
Proof.
  intros H w. unfold main.
  pose proof (quiet_main_loop env use_api clear_every fuel n H 0%Z w) as L.
  destruct (main_loop env use_api clear_every fuel n 0%Z w)
    as [[c | e |] w1]; cbn [snd] in L.
  - rewrite <- L. apply quiet_farewell.
  - destruct e; try exact L. rewrite <- L. apply quiet_farewell.
  - exact L.
Qed.

Lemma should_clear_zero c : should_clear 0 c = false.
Proof. reflexivity. Qed.

Lemma should_clear_negative clear_every c :
  (clear_every < 0)%Z -> should_clear clear_every c = false.
Proof.
  intros H. unfold should_clear.
  assert (E : (0 <? clear_every)%Z = false) by (apply Z.ltb_ge; lia).
  rewrite E. now rewrite andb_false_r.
Qed.

(** What the guard of line 166 says: the screen is cleared at the top of
    a pass exactly when the counter is a positive multiple of a positive
    interval. *)
Lemma should_clear_iff clear_every c :
  should_clear clear_every c = true
  <-> (0 < clear_every /\ c <> 0 /\ c mod clear_every = 0)%Z.
Proof.
  unfold should_clear.
  rewrite !andb_true_iff, !negb_true_iff, !Z.eqb_neq, Z.ltb_lt, Z.eqb_eq.
  split; [intros [[[_ H1] H2] H3] | intros (H1 & H2 & H3)];
    repeat split; auto; lia.
Qed.

(** A pass clears the screen once when its guard holds, and never
    otherwise. *)
Lemma maybe_clear_eq env clear_every c w :
  should_clear clear_every c = true ->
  maybe_clear env clear_every c w
  = (Ok tt,
     logged (Printed
               (if COLOR env
                then colored env
                       (strftime_ts (calendar w 0)
                        ++ " [SYSTEM] Switched display buffer.") Fore.CYAN
                else strftime_ts (calendar w 0)
                     ++ " [SYSTEM] Switched display buffer."))
       (advance 0 1 (logged (Ran (clear_command env)) w))).
Proof. intros S. unfold maybe_clear. rewrite S. reflexivity. Qed.

Lemma clear_command_clears env : is_clear (Ran (clear_command env)) = true.
Proof.
  unfold clear_command. destruct (prefix "win" (platform env)); reflexivity.
Qed.

Lemma clears_iteration env use_api clear_every fuel c w :
  clears (trace (snd (iteration env use_api clear_every fuel c w)))
  = (clears (trace w) + if should_clear clear_every c then 1 else 0)%nat.
Proof.
  destruct (should_clear clear_every c) eqn:S.
  - unfold iteration. rewrite (run_bind _ (maybe_clear_eq env _ _ w S)).
    match goal with
    | |- clears (trace (snd (?m ?w1))) = _ =>
        assert (Q : quiet m) by (unfold and_then; quiet_tac);
        rewrite (Q w1)
    end.
    cbn [logged advance trace]. rewrite !clears_app.
    unfold clears at 2 3. cbn [filter is_clear List.length].
    fold (is_clear (Ran (clear_command env))).
    rewrite (clear_command_clears env). cbn [List.length]. lia.
  - rewrite (quiet_iteration env use_api clear_every fuel c S w). lia.
Qed.

(** C9: with [--clear-every 0] no pass of the driver loop clears the
    screen, however many passes [main] makes and however they end. *)
Theorem clear_every_zero_never_clears env use_api fuel n w :
  clears (trace (snd (main env use_api 0 fuel n w))) = clears (trace w).
Proof. apply quiet_main. exact should_clear_zero. Qed.

(** C10: with a negative [--clear-every] the guard [clear_every > 0]
    fails, and no pass of the driver loop clears the screen. *)
Theorem clear_every_negative_never_clears env use_api clear_every fuel n w :
  (clear_every < 0)%Z ->
  clears (trace (snd (main env use_api clear_every fuel n w)))
  = clears (trace w).
Proof.
  intros H. apply quiet_main. intros c. now apply should_clear_negative.
Qed.

Lemma clear_every_negative_never_clears_witness :
  clears (trace (snd (main env_plain false (-3) 5 6 world_skip)))
  = clears (trace world_skip).
Proof.
  apply (clear_every_negative_never_clears env_plain false (-3) 5 6
           world_skip).
  reflexivity.
Defined.

(** C8 at a failing input.  With [--clear-every 3] the passes of
    [world_skip] print two lines, run a spinner that adds two to the
    counter, and print two more lines: the counter goes 1, 2, 4, 5 and
    never stands at 3.  After four passes four lines have been completed
    and the screen has not been cleared; the first clear comes in the
    sixth pass, with the counter at 6. *)
Theorem clear_every_three_skips :
  fst (main_loop env_plain false 3 5 4 0 world_skip) = Ok 5%Z
  /\ lines_printed (trace (snd (main_loop env_plain false 3 5 4 0 world_skip)))
     = 4%nat
  /\ clears (trace (snd (main_loop env_plain false 3 5 4 0 world_skip)))
     = 0%nat
  /\ fst (main_loop env_plain false 3 5 5 0 world_skip) = Ok 6%Z
  /\ clears (trace (snd (main_loop env_plain false 3 5 5 0 world_skip)))
     = 0%nat
  /\ clears (trace (snd (main_loop env_plain false 3 5 6 0 world_skip)))
     = 1%nat.
Proof. vm_compute. repeat split; reflexivity. Qed.

(** ** The floating-point literals *)

(** The thresholds of the model are the binary64 values of the literals
    in the script. *)
Lemma literals_exact :
  Q_of_float 0.06%float = PROGRESS_BAR_CHANCE
  /\ Q_of_float 0.04%float = SPINNER_CHANCE
  /\ Q_of_float 0.08%float = API_QUOTE_FREQ
  /\ Q_of_float 0.35%float = CHAIN_CHANCE
  /\ Q_of_float 0.22%float = CMD_CHANCE.
Proof. vm_compute. repeat split; reflexivity. Qed.

(** In binary64 as in exact arithmetic, the largest fraction below one
    is drawn as 99%: [int(frac * 100)] is 100 for [frac = 1.0] only. *)
Lemma largest_fraction_below_one :
  PrimFloat.ltb (PrimFloat.mul (PrimFloat.next_down 1%float) 100%float)
    100%float = true
  /\ PrimFloat.eqb (PrimFloat.mul 1%float 100%float) 100%float = true.
Proof. vm_compute. split; reflexivity. Qed.

(** * Further properties of the script *)

(** ** Filling templates *)

Lemma u53_range n : (0 <= u53 n)%Q /\ (u53 n < 1)%Q.
Proof.
  unfold u53, Qle, Qlt. cbn [Qnum Qden].
  assert (H : (n mod Random.two53 < Random.two53)%N)
    by (apply N.mod_lt; discriminate).
  revert H. generalize (n mod Random.two53)%N. intros m H.
  unfold Random.two53 in H. split; lia.
Qed.



Lemma lookup_unknown f name :
  ~ In name placeholder_names -> PyStr.lookup (kwargs_of f) name = None.
Proof.
  intros H. unfold kwargs_of, placeholder_names in *. cbn [PyStr.lookup].
  repeat match goal with
         | |- context [String.eqb ?k name] =>
             destruct (String.eqb_spec k name) as [E | _];
             [exfalso; apply H; rewrite <- E; cbn; tauto |]
         end.
  reflexivity.
Qed.

Lemma format_literal kw pre t :
  brace_free pre = true ->
  PyStr.format_from kw None (pre ++ t)
  = option_map (append pre) (PyStr.format_from kw None t).
Proof.
  induction pre as [|c pre IH]; intros H.
  - cbn [append]. destruct (PyStr.format_from kw None t); reflexivity.
  - cbn [brace_free] in H. apply andb_true_iff in H. destruct H as [H Hp].
    apply andb_true_iff in H. destruct H as [Ho Hc].
    apply negb_true_iff in Ho, Hc.
    cbn [append PyStr.format_from]. rewrite Ho, Hc, (IH Hp).
    destruct (PyStr.format_from kw None t); reflexivity.
Qed.

Lemma format_field kw name : forall acc post,
  plain_name name = true ->
  PyStr.format_from kw (Some acc) (name ++ String "}" post)
  = match PyStr.lookup kw (acc ++ name) with
    | Some v => option_map (append v) (PyStr.format_from kw None post)
    | None => None
    end.
Proof.
  induction name as [|c name IH]; intros acc post H.
  - cbn [append PyStr.format_from]. cbn. now rewrite append_nil_r.
  - cbn [plain_name] in H. apply andb_true_iff in H. destruct H as [H Hn].
    apply andb_true_iff in H. destruct H as [Hc Hs].
    apply negb_true_iff in Hc, Hs.
    cbn [append PyStr.format_from]. rewrite Hc, Hs, (IH _ _ Hn).
    unfold PyStr.snoc. rewrite append_assoc. reflexivity.
Qed.

Lemma fill_unknown pre name post f :
  brace_free pre = true -> plain_name name = true ->
  ~ In name placeholder_names ->
  fill (pre ++ String "{" (name ++ String "}" post)) f = None.
Proof.
  intros Hp Hn Hu. unfold fill, PyStr.format.
  rewrite (format_literal _ _ _ Hp).
  assert (E : PyStr.format_from (kwargs_of f) None
                (String "{" (name ++ String "}" post)) = None).
  { cbn [PyStr.format_from]. change ("{" =? "{")%char with true. cbn iota.
    assert (F : PyStr.format_from (kwargs_of f) (Some EmptyString)
                  (name ++ String "}" post) = None).
    { rewrite (format_field _ _ _ _ Hn). cbn [append].
      now rewrite (lookup_unknown _ _ Hu). }
    destruct name as [|c name]; cbn [append] in *; [exact F|].
    cbn [plain_name] in Hn.
    destruct (c =? "{")%char eqn:Ec; [|exact F].
    apply Ascii.eqb_eq in Ec. subst c. discriminate Hn. }
  now rewrite E.
Qed.

(** X2: a template that names a placeholder outside the eleven keyword
    arguments makes [pick] raise, after the draws and before anything is
    printed, whatever text precedes and follows the placeholder. *)
Theorem pick_unknown_placeholder_raises pre name post w :
  brace_free pre = true -> plain_name name = true ->
  ~ In name placeholder_names ->
  exists w',
    pick (pre ++ String "{" (name ++ String "}" post)) w
    = (Raise FormatError, w')
    /\ trace w' = trace w.
Proof.
  intros Hp Hn Hu. exists (advance 10 1 w). split; [|reflexivity].
  unfold pick. rewrite (run_bind _ (draw_fields_eq w)).
  now rewrite (fill_unknown _ _ _ _ Hp Hn Hu).
Qed.

Lemma pick_unknown_placeholder_raises_witness :
  exists w',
    pick "Host {host} reported: {detail}" world_keys = (Raise FormatError, w')
    /\ trace w' = trace world_keys.
Proof.
  apply (pick_unknown_placeholder_raises "Host " "host" " reported: {detail}"
           world_keys).
  - reflexivity.
  - reflexivity.
  - cbn. intros H.
    repeat (destruct H as [H | H]; [discriminate H|]). exact H.
Defined.

(** X3: every value that [pick] substitutes comes from its bank (the
    capitalised verb from the capitalised bank), and the numbers lie in
    the ranges of their calls: [num] in 1..99999, [pct] in 0.1..99.9 and
    [ms] in 1..1200. *)
Theorem draw_fields_ranges w :
  exists f w',
    draw_fields w = (Ok f, w')
    /\ In (f_adj f) adjectives /\ In (f_verb f) verbs
    /\ In (f_verb_cap f) (map PyStr.capitalize verbs)
    /\ In (f_noun f) nouns /\ In (f_system f) systems
    /\ (1 <= f_num f <= 99999)%Z
    /\ ((1 # 10) <= f_pct f <= (999 # 10))%Q
    /\ (1 <= f_ms f <= 1200)%Z
    /\ In (f_status f) status_phrases /\ In (f_detail f) details.
Proof.
  exists (fields_at w), (advance 10 1 w).
  split; [apply draw_fields_eq|].
  unfold fields_at.
  cbn [f_adj f_verb f_verb_cap f_noun f_system f_num f_pct f_ms f_status
       f_detail].
  repeat match goal with
         | |- _ /\ _ => split
         | |- In (pick_at _ _ _) _ => apply pick_at_In; discriminate
         | |- In (PyStr.capitalize _) _ =>
             apply in_map; apply pick_at_In; discriminate
         end.
  - assert (H : (rng w 5 mod 99999 < 99999)%N) by (apply N.mod_lt; discriminate).
    revert H. generalize (rng w 5 mod 99999)%N. intros m H. lia.
  - assert (H : (rng w 5 mod 99999 < 99999)%N) by (apply N.mod_lt; discriminate).
    revert H. generalize (rng w 5 mod 99999)%N. intros m H. lia.
  - destruct (u53_range (rng w 6)) as [L _].
    rewrite <- Qplus_0_r at 1. apply Qplus_le_r.
    apply Qmult_le_0_compat; [discriminate | exact L].
  - destruct (u53_range (rng w 6)) as [_ U].
    apply Qle_trans with ((1 # 10) + ((999 # 10) - (1 # 10)) * 1)%Q;
      [|discriminate].
    apply Qplus_le_r. apply Qmult_le_l; [reflexivity|].
    now apply Qlt_le_weak.
  - assert (H : (rng w 7 mod 1200 < 1200)%N) by (apply N.mod_lt; discriminate).
    revert H. generalize (rng w 7 mod 1200)%N. intros m H. lia.
  - assert (H : (rng w 7 mod 1200 < 1200)%N) by (apply N.mod_lt; discriminate).
    revert H. generalize (rng w 7 mod 1200)%N. intros m H. lia.
Qed.

(** ** The severity *)

Lemma Qlt_bool_trans_false x a b :
  (a <= b)%Q -> Qlt_bool x b = false -> Qlt_bool x a = false.
Proof.
  intros H F. destruct (Qlt_bool x a) eqn:E; [|reflexivity].
  apply Qlt_bool_iff in E.
  assert (T : Qlt_bool x b = true)
    by (apply Qlt_bool_iff; eapply Qlt_le_trans; eassumption).
  congruence.
Qed.


(** ** Frames: what a computation leaves alone *)

Create HintDb specs.

Section Frames.

Variable F : Frame.

Lemma spec_ret {A} (Q : A -> Prop) a : Q a -> spec F Q (ret a).
Proof.
  intros H w. split; [apply holds_refl|].
  cbn. now intros b [= <-].
Qed.

Lemma spec_raise {A} (Q : A -> Prop) e : spec F Q (raise e).
Proof. intros w. split; [apply holds_refl | discriminate]. Qed.

Lemma spec_pending {A} (Q : A -> Prop) : spec F Q pending.
Proof. intros w. split; [apply holds_refl | discriminate]. Qed.

Lemma spec_bind {A B} (Q : A -> Prop) (Q' : B -> Prop) m k :
  spec F Q m -> (forall a, Q a -> spec F Q' (k a)) -> spec F Q' (bind m k).
Proof.
  intros Hm Hk w. unfold bind. destruct (Hm w) as [H1 H2].
  destruct (m w) as [[a | e |] w1]; cbn [fst snd] in *.
  - destruct (Hk a (H2 a eq_refl) w1) as [H3 H4].
    split; [eapply holds_trans; eassumption | exact H4].
  - split; [exact H1 | discriminate].
  - split; [exact H1 | discriminate].
Qed.

Lemma spec_try_except {A} (Q : A -> Prop) m h :
  spec F Q m -> spec F Q h -> spec F Q (try_except m h).
Proof.
  intros Hm Hh w. unfold try_except. destruct (Hm w) as [H1 H2].
  destruct (m w) as [[a | e |] w1]; cbn [fst snd] in *.
  - split; assumption.
  - destruct (is_Exception e).
    + destruct (Hh w1) as [H3 H4].
      split; [eapply holds_trans; eassumption | exact H4].
    + split; [exact H1 | discriminate].
  - split; [exact H1 | discriminate].
Qed.

Lemma spec_weaken {A} (Q Q' : A -> Prop) m :
  (forall a, Q a -> Q' a) -> spec F Q m -> spec F Q' m.
Proof.
  intros H Hm w. destruct (Hm w) as [H1 H2]. split; auto.
Qed.

(** What the frame must allow: reading the random source and the clocks,
    printing, flushing, running a command, and short pauses; requests
    only if [requests_ok]. *)
Variable requests_ok : Prop.
Hypothesis rng_kept : spec F (fun _ => True) rng_next.
Hypothesis time_kept : spec F (fun _ => True) time_time.
Hypothesis now_kept : spec F (fun _ => True) datetime_now.
Hypothesis request_kept : requests_ok -> spec F (fun _ => True) requests_get.
Hypothesis print_kept : forall s, spec F (fun _ => True) (print s).
Hypothesis print_cr_kept : forall s, spec F (fun _ => True) (print_cr s).
Hypothesis flush_kept : spec F (fun _ => True) flush.
Hypothesis system_kept : forall c, spec F (fun _ => True) (os_system c).
Hypothesis sleep_kept :
  forall d, short_nap d -> spec F (fun _ => True) (sleep d).

Ltac spec_step :=
  lazymatch goal with
  | |- spec _ _ (bind _ _) =>
      first [ eapply spec_bind; [solve [eauto with specs] | intros ? ?]
            | eapply (spec_bind (fun _ => True)); [| intros ? _] ]
  | |- spec _ _ (try_except _ _) => apply spec_try_except
  | |- spec _ _ (if ?b then _ else _) => destruct b eqn:?
  | |- spec _ _ (match ?x with _ => _ end) => destruct x eqn:?
  | |- spec _ _ (ret _) => apply spec_ret
  | |- spec _ _ (raise _) => apply spec_raise
  | |- spec _ _ pending => apply spec_pending
  | |- spec _ _ _ => solve [eauto with specs]
  end.

#[local] Hint Resolve rng_kept time_kept now_kept request_kept print_kept
  print_cr_kept flush_kept system_kept sleep_kept : specs.
#[local] Hint Extern 1 (Qle _ _) => (vm_compute; discriminate) : specs.
#[local] Hint Extern 1 (short_nap _) =>
  (unfold short_nap, TICK_MIN, TICK_MAX in *; cbn beta in *; split; nra)
  : specs.

Ltac spec_tac := repeat spec_step; try exact I; try lia.

Lemma spec_random :
  spec F (fun u => 0 <= u /\ u < 1)%Q Random.random.
Proof.
  unfold Random.random. spec_step. spec_step. apply u53_range.
Qed.

Lemma spec_randbelow n : spec F (fun _ => True) (Random.randbelow n).
Proof. unfold Random.randbelow. spec_tac. Qed.
#[local] Hint Resolve spec_random spec_randbelow : specs.

Lemma spec_choice seq : spec F (fun _ => True) (Random.choice seq).
Proof. unfold Random.choice. spec_tac. Qed.

Lemma spec_randint a b : spec F (fun _ => True) (Random.randint a b).
Proof. unfold Random.randint. spec_tac. Qed.

Lemma spec_uniform a b :
  (a <= b)%Q -> spec F (fun d => a <= d /\ d <= b)%Q (Random.uniform a b).
Proof.
  intros H. unfold Random.uniform. spec_step. spec_step.
  cbn beta in *. split; nra.
Qed.

Lemma spec_choices1 p ws : spec F (fun _ => True) (Random.choices1 p ws).
Proof. unfold Random.choices1. spec_tac. Qed.

Lemma spec_chance p : spec F (fun _ => True) (chance p).
Proof. unfold chance. spec_tac. Qed.

Lemma spec_now_ts : spec F (fun _ => True) now_ts.
Proof. unfold now_ts. spec_tac. Qed.
#[local] Hint Resolve spec_choice spec_randint spec_uniform spec_choices1
  spec_chance spec_now_ts : specs.

Lemma spec_pick t : spec F (fun _ => True) (pick t).
Proof. unfold pick, draw_fields. spec_tac. Qed.
#[local] Hint Resolve spec_pick : specs.

Lemma spec_generate : spec F (fun _ => True) generate.
Proof. unfold generate, build_sentence. spec_tac. Qed.
#[local] Hint Resolve spec_generate : specs.

Lemma spec_emit_log_line env c :
  spec F (fun c' => c' = c + 1)%Z (emit_log_line env c).
Proof. unfold emit_log_line. spec_tac. Qed.

Lemma spec_fetch_quote env :
  requests_ok \/ have_requests env = false ->
  spec F (fun _ => True) (fetch_quote env).
Proof.
  intros H. unfold fetch_quote, quote_of_body.
  destruct (have_requests env); cbn [negb].
  - destruct H as [H | H]; [|discriminate H]. spec_tac.
  - spec_tac.
Qed.
#[local] Hint Resolve spec_emit_log_line spec_fetch_quote : specs.

Lemma bind_ret_l {A B} (a : A) (k : A -> M B) : bind (ret a) k = k a.
Proof. reflexivity. Qed.

Lemma spec_quote_or_line env use_api c :
  requests_ok \/ use_api && have_requests env = false ->
  spec F (fun c' => c' = c + 1)%Z (quote_or_line env use_api c).
Proof.
  intros H. unfold quote_or_line, and_then.
  destruct (use_api && have_requests env) eqn:U.
  - destruct H as [H | H]; [|discriminate H]. spec_tac.
  - rewrite !bind_ret_l. cbn [truthy]. apply spec_emit_log_line.
Qed.

Lemma spec_progress_loop env fuel start duration width :
  spec F (fun _ => True) (progress_loop env fuel start duration width).
Proof.
  induction fuel as [|fuel IH]; cbn [progress_loop]; spec_tac.
Qed.

Lemma spec_spinner_loop fuel t0 duration i :
  spec F (fun _ => True) (spinner_loop fuel t0 duration i).
Proof.
  revert i. induction fuel as [|fuel IH]; intros i; cbn [spinner_loop];
    spec_tac.
Qed.
#[local] Hint Resolve spec_quote_or_line spec_progress_loop
  spec_spinner_loop : specs.

Lemma spec_progress_bar env fuel duration width :
  spec F (fun _ => True) (progress_bar_simulation env fuel duration width).
Proof. unfold progress_bar_simulation. spec_tac. Qed.

Lemma spec_spinner fuel duration : spec F (fun _ => True) (spinner fuel duration).
Proof. unfold spinner. spec_tac. Qed.

Lemma spec_maybe_clear env clear_every c :
  spec F (fun _ => True) (maybe_clear env clear_every c).
Proof. unfold maybe_clear. spec_tac. Qed.
#[local] Hint Resolve spec_progress_bar spec_spinner spec_maybe_clear : specs.

Lemma spec_iteration env use_api clear_every fuel c :
  requests_ok \/ use_api && have_requests env = false ->
  spec F (fun c' => c < c' <= c + 3)%Z
    (iteration env use_api clear_every fuel c).
Proof.
  intros H. unfold iteration, and_then.
  pose proof (spec_quote_or_line env use_api c H) as Q.
  assert (Q' : spec F (fun c' => c < c' <= c + 3)%Z
                 (quote_or_line env use_api c)).
  { eapply spec_weaken; [|exact Q]. cbn beta. lia. }
  clear Q. spec_tac.
Qed.

Lemma spec_main_loop env use_api clear_every fuel n :
  requests_ok \/ use_api && have_requests env = false ->
  forall c,
    spec F (fun c' => c + Z.of_nat n <= c' <= c + 3 * Z.of_nat n)%Z
      (main_loop env use_api clear_every fuel n c).
Proof.
  intros H. induction n as [|n IH]; intros c; cbn [main_loop].
  - apply spec_ret. lia.
  - eapply spec_bind; [now apply spec_iteration|].
    intros c1 Hc. eapply spec_weaken; [|apply IH].
    cbn beta in *. lia.
Qed.

Lemma spec_farewell env : spec F (fun _ => True) (farewell env).
Proof. unfold farewell. spec_tac. Qed.

Lemma spec_main env use_api clear_every fuel n :
  requests_ok \/ use_api && have_requests env = false ->
  spec F (fun _ => True) (main env use_api clear_every fuel n).
Proof.
  intros H w. unfold main.
  destruct (spec_main_loop env use_api clear_every fuel n H 0%Z w) as [L _].
  destruct (main_loop env use_api clear_every fuel n 0%Z w)
    as [[c | e |] w1]; cbn [snd] in L.
  - destruct (spec_farewell env w1) as [H1 H2].
    split; [eapply holds_trans; eassumption | auto].
  - destruct e; try (split; [exact L | discriminate]).
    destruct (spec_farewell env w1) as [H1 H2].
    split; [eapply holds_trans; eassumption | auto].
  - split; [exact L | discriminate].
Qed.

Lemma spec_cli env use_api no_color clear_every fuel n :
  requests_ok \/ use_api && have_requests env = false ->
  spec F (fun _ => True) (cli env use_api no_color clear_every fuel n).
Proof.
  intros H. unfold cli.
  eapply spec_bind with (Q := fun _ => True).
  - spec_tac.
  - intros _ _. apply spec_main. cbn [have_requests].
    destruct H as [H | H]; [now left | right].
    now rewrite <- andb_assoc, andb_diag.
Qed.

End Frames.

Lemma spec_trivial {A} (m : M A) : spec any_world (fun _ => True) m.
Proof. intros w. split; [exact I | auto]. Qed.

Lemma spec_same_http {A} (m : M A) :
  (forall w n, http (snd (m w)) n = http w n) ->
  spec same_http (fun _ => True) m.
Proof. intros H w. split; [exact (H w) | auto]. Qed.

Lemma spec_emit_nap e : nap_ok e -> spec short_naps (fun _ => True) (emit e).
Proof.
  intros H w. split; [|auto].
  exists [e]. split; [reflexivity | now repeat constructor].
Qed.

Lemma spec_read_nap {A} (m : M A) :
  (forall w, trace (snd (m w)) = trace w) ->
  spec short_naps (fun _ => True) m.
Proof.
  intros H w. split; [|auto].
  exists []. split; [now rewrite app_nil_r, H | constructor].
Qed.

Lemma main_loop_counter env use_api clear_every fuel n c w c' w' :
  main_loop env use_api clear_every fuel n c w = (Ok c', w') ->
  (c + Z.of_nat n <= c' <= c + 3 * Z.of_nat n)%Z.
Proof.
  intros H.
  destruct (spec_main_loop any_world True
              (spec_trivial _) (spec_trivial _) (spec_trivial _)
              (fun _ => spec_trivial _) (fun _ => spec_trivial _)
              (fun _ => spec_trivial _) (spec_trivial _)
              (fun _ => spec_trivial _) (fun _ _ => spec_trivial _)
              env use_api clear_every fuel n (or_introl I) c w) as [_ V].
  apply V. now rewrite H.
Qed.

(** X5: every completed pass of the driver loop adds one, two or three
    to [line_counter], so [n] completed passes add between [n] and [3 n]. *)
Theorem passes_advance_counter env use_api clear_every fuel n c w c' w' :
  main_loop env use_api clear_every fuel n c w = (Ok c', w') ->
  (c + Z.of_nat n <= c' <= c + 3 * Z.of_nat n)%Z.
Proof. apply main_loop_counter. Qed.

Lemma passes_advance_counter_witness :
  (0 + Z.of_nat 4 <= 5 <= 0 + 3 * Z.of_nat 4)%Z.
Proof.
  apply (passes_advance_counter env_plain false 3 5 4 0 world_skip 5
           (snd (main_loop env_plain false 3 5 4 0 world_skip))).
  vm_compute. reflexivity.
Defined.

(** X6: without [--use-api], or without the [requests] module, the
    program makes no request, however long it runs: the outcomes the
    network holds ready are all still there. *)
Theorem no_request_without_api env use_api no_color clear_every fuel n w :
  use_api && have_requests env = false ->
  forall k,
    http (snd (cli env use_api no_color clear_every fuel n w)) k = http w k.
Proof.
  intros H.
  destruct (spec_cli same_http False
              (spec_same_http rng_next (fun _ _ => eq_refl))
              (spec_same_http time_time (fun _ _ => eq_refl))
              (spec_same_http datetime_now (fun _ _ => eq_refl))
              (fun F => match F with end)
              (fun s => spec_same_http (print s) (fun _ _ => eq_refl))
              (fun s => spec_same_http (print_cr s) (fun _ _ => eq_refl))
              (spec_same_http flush (fun _ _ => eq_refl))
              (fun c => spec_same_http (os_system c) (fun _ _ => eq_refl))
              (fun d _ => spec_same_http (sleep d) (fun _ _ => eq_refl))
              env use_api no_color clear_every fuel n (or_intror H) w)
    as [K _].
  exact K.
Qed.

Lemma no_request_without_api_witness :
  http (snd (cli env_plain false false 3 5 6 world_skip)) 0%nat
  = http world_skip 0%nat.
Proof.
  apply (no_request_without_api env_plain false false 3 5 6 world_skip
           eq_refl 0%nat).
Defined.

(** X7: [main] only adds to the trace, and every pause it makes lasts at
    least 0.03 and less than 0.8 seconds, whether between lines, after a
    quote, or between the frames of a bar or a spinner. *)
Theorem pauses_are_short env use_api clear_every fuel n w :
  exists evs,
    trace (snd (main env use_api clear_every fuel n w))
    = (trace w ++ evs)%list
    /\ forall d, In (Slept d) evs -> ((3 # 100) <= d /\ d < (8 # 10))%Q.
Proof.
  destruct (spec_main short_naps True
              (spec_read_nap rng_next (fun _ => eq_refl))
              (spec_read_nap time_time (fun _ => eq_refl))
              (spec_read_nap datetime_now (fun _ => eq_refl))
              (fun _ => spec_read_nap requests_get (fun _ => eq_refl))
              (fun s => spec_emit_nap (Printed s) I)
              (fun s => spec_emit_nap (PrintedCR s) I)
              (spec_emit_nap Flushed I)
              (fun c => spec_emit_nap (Ran c) I)
              (fun d H => spec_emit_nap (Slept d) H)
              env use_api clear_every fuel n (or_introl I) w)
    as [(evs & T & Fa) _].
  exists evs. split; [exact T|].
  intros d Hd. rewrite Forall_forall in Fa. exact (Fa _ Hd).
Qed.

(** ** How often the screen is cleared *)

Lemma iteration_counter env use_api clear_every fuel c w c1 w1 :
  iteration env use_api clear_every fuel c w = (Ok c1, w1) ->
  (c < c1 <= c + 3)%Z.
Proof.
  intros H.
  destruct (spec_iteration any_world True
              (spec_trivial _) (spec_trivial _) (spec_trivial _)
              (fun _ => spec_trivial _) (fun _ => spec_trivial _)
              (fun _ => spec_trivial _) (spec_trivial _)
              (fun _ => spec_trivial _) (fun _ _ => spec_trivial _)
              env use_api clear_every fuel c (or_introl I) w) as [_ V].
  apply V. now rewrite H.
Qed.

Lemma bind_ok {A B} (m : M A) (k : A -> M B) w b w' :
  bind m k w = (Ok b, w') ->
  exists a w1, m w = (Ok a, w1) /\ k a w1 = (Ok b, w').
Proof.
  unfold bind. destruct (m w) as [[a | e |] w1]; try discriminate.
  intros H. now exists a, w1.
Qed.

Lemma main_loop_step env use_api clear_every fuel n c w c' w' :
  main_loop env use_api clear_every fuel (S n) c w = (Ok c', w') ->
  exists c1 w1,
    (c < c1 <= c + 3)%Z
    /\ clears (trace w1)
       = (clears (trace w) + if should_clear clear_every c then 1 else 0)%nat
    /\ main_loop env use_api clear_every fuel n c1 w1 = (Ok c', w').
Proof.
  cbn [main_loop]. intros H.
  destruct (bind_ok _ _ _ _ _ H) as (c1 & w1 & I1 & R).
  exists c1, w1. split.
  - exact (iteration_counter _ _ _ _ _ _ _ _ I1).
  - split; [|exact R].
    pose proof (clears_iteration env use_api clear_every fuel c w) as C.
    now rewrite I1 in C.
Qed.

Lemma multiples_below_step N c c1 :
  (0 < N)%Z -> (0 <= c < c1)%Z ->
  (multiples_below N c
   + (if should_clear N c then 1 else 0) <= multiples_below N c1)%Z.
Proof.
  intros HN Hc. unfold multiples_below.
  destruct (should_clear N c) eqn:S.
  - apply should_clear_iff in S. destruct S as (_ & Hz & Hm).
    rewrite (Z.max_l c 1), (Z.max_l c1 1) by lia.
    apply Z.mod_divide in Hm; [|lia]. destruct Hm as [q ->].
    assert (1 <= q)%Z by nia.
    replace (q * N - 1)%Z with ((q - 1) * N + (N - 1))%Z by lia.
    rewrite Z.div_add_l by lia. rewrite Z.div_small by lia.
    apply Z.div_le_lower_bound; [lia|]. nia.
  - rewrite Z.add_0_r. apply Z.div_le_mono; lia.
Qed.

Lemma main_loop_clears_bound env use_api N fuel :
  (0 < N)%Z ->
  forall n c w c' w',
    (0 <= c)%Z ->
    main_loop env use_api N fuel n c w = (Ok c', w') ->
    (Z.of_nat (clears (trace w')) + multiples_below N c
     <= Z.of_nat (clears (trace w)) + multiples_below N c')%Z.
Proof.
  intros HN. induction n as [|n IH]; intros c w c' w' Hc H.
  - cbn in H. injection H as <- <-. lia.
  - destruct (main_loop_step _ _ _ _ _ _ _ _ _ H) as (c1 & w1 & B & C & R).
    specialize (IH c1 w1 c' w' ltac:(lia) R).
    pose proof (multiples_below_step N c c1 HN ltac:(lia)) as M.
    rewrite C in IH. destruct (should_clear N c); lia.
Qed.

(** X8: with a positive interval [N] the screen is cleared at most once
    per [N] counted lines: after any number of completed passes, [N] times
    the number of clears is at most [line_counter]. *)
Theorem clears_at_most_once_per_interval env use_api N fuel n w c' w' :
  (0 < N)%Z ->
  main_loop env use_api N fuel n 0 w = (Ok c', w') ->
  (N * Z.of_nat (clears (trace w') - clears (trace w)) <= c')%Z.
Proof.
  intros HN H.
  pose proof (main_loop_clears_bound env use_api N fuel HN n 0 w c' w'
                (Z.le_refl 0) H) as B.
  pose proof (main_loop_counter _ _ _ _ _ _ _ _ _ H) as P.
  unfold multiples_below in B.
  change ((Z.max 0 1 - 1) / N)%Z with (0 / N)%Z in B.
  rewrite Z.div_0_l in B by lia.
  assert (D : (N * ((Z.max c' 1 - 1) / N) <= Z.max c' 1 - 1)%Z)
    by (apply Z.mul_div_le; lia).
  nia.
Qed.

Lemma clears_at_most_once_per_interval_witness :
  (3 * Z.of_nat
         (clears (trace (snd (main_loop env_plain false 3 5 6 0 world_skip)))
          - clears (trace world_skip)) <= 7)%Z.
Proof.
  apply (clears_at_most_once_per_interval env_plain false 3 5 6 world_skip 7
           (snd (main_loop env_plain false 3 5 6 0 world_skip))).
  - reflexivity.
  - vm_compute. reflexivity.
Defined.

Lemma every_pass_clears env use_api fuel :
  forall n c w c' w',
    (1 <= c)%Z ->
    main_loop env use_api 1 fuel n c w = (Ok c', w') ->
    clears (trace w') = (clears (trace w) + n)%nat.
Proof.
  induction n as [|n IH]; intros c w c' w' Hc H.
  - cbn in H. injection H as <- <-. lia.
  - destruct (main_loop_step _ _ _ _ _ _ _ _ _ H) as (c1 & w1 & B & C & R).
    rewrite (IH c1 w1 c' w' ltac:(lia) R), C.
    assert (S : should_clear 1 c = true).
    { apply should_clear_iff. repeat split; try lia. apply Z.mod_1_r. }
    rewrite S. lia.
Qed.

(** X9: with [--clear-every 1] the first pass clears nothing, because
    the counter is still zero, and every later pass clears once: [n]
    completed passes clear the screen [n - 1] times. *)
Theorem clear_every_one_clears_every_pass env use_api fuel n w c' w' :
  main_loop env use_api 1 fuel n 0 w = (Ok c', w') ->
  clears (trace w') = (clears (trace w) + (n - 1))%nat.
Proof.
  destruct n as [|n]; intros H.
  - cbn in H. injection H as <- <-. lia.
  - destruct (main_loop_step _ _ _ _ _ _ _ _ _ H) as (c1 & w1 & B & C & R).
    rewrite (every_pass_clears env use_api fuel n c1 w1 c' w' ltac:(lia) R), C.
    cbn. lia.
Qed.

Lemma clear_every_one_clears_every_pass_witness :
  clears (trace (snd (main_loop env_plain false 1 5 6 0 world_skip)))
  = (clears (trace world_skip) + (6 - 1))%nat.
Proof.
  apply (clear_every_one_clears_every_pass env_plain false 5 6 world_skip 7
           (snd (main_loop env_plain false 1 5 6 0 world_skip))).
  vm_compute. reflexivity.
Defined.

(** ** The progress bar outside its normal use *)

(** X10: a progress bar of duration zero raises [ZeroDivisionError] at
    its first frame, before anything is drawn. *)
Theorem progress_bar_zero_duration env fuel duration width w :
  (duration == 0)%Q ->
  exists w',
    progress_bar_simulation env (S fuel) duration width w
    = (Raise ZeroDivisionError, w')
    /\ trace w' = trace w.
Proof.
  intros H. apply Qeq_bool_iff in H.
  exists (after_time (after_time w)). split; [|reflexivity].
  unfold progress_bar_simulation.
  assert (T : time_time w = (Ok (wall w 0), after_time w)) by reflexivity.
  rewrite (run_bind _ T). cbn [progress_loop].
  assert (T2 : time_time (after_time w)
               = (Ok (wall w 1), after_time (after_time w))) by reflexivity.
  unfold bind at 1. rewrite (run_bind _ T2), H. reflexivity.
Qed.

Lemma progress_bar_zero_duration_witness :
  exists w',
    progress_bar_simulation env_plain 1 0 30 world_bar
    = (Raise ZeroDivisionError, w')
    /\ trace w' = trace world_bar.
Proof.
  apply (progress_bar_zero_duration env_plain 0 0 30 world_bar).
  reflexivity.
Defined.

Lemma frac_negative_duration start duration w :
  (duration < 0)%Q -> (start <= wall w 0)%Q ->
  Qle_bool 1 (frac_at start duration w) = false.
Proof.
  intros D H. destruct (Qle_bool 1 (frac_at start duration w)) eqn:E;
    [|reflexivity].
  exfalso. apply Qle_bool_iff in E. unfold frac_at, py_min in E.
  assert (L : ((wall w 0 - start) / duration <= 0)%Q).
  { assert (M : ((wall w 0 - start) / duration * duration
                 == wall w 0 - start)%Q)
      by (field; intros Z; rewrite Z in D; discriminate D).
    revert M. generalize ((wall w 0 - start) / duration)%Q. intros q M.
    nra. }
  destruct (Qlt_bool ((wall w 0 - start) / duration) 1) eqn:B.
  - lra.
  - assert (T : Qlt_bool ((wall w 0 - start) / duration) 1 = true)
      by (apply Qlt_bool_iff; lra).
    congruence.
Qed.

Lemma progress_loop_negative env start duration width :
  (duration < 0)%Q ->
  forall fuel w,
    (forall n, start <= wall w n)%Q ->
    fst (progress_loop env fuel start duration width w) = Pending.
Proof.
  intros D.
  assert (D0 : Qeq_bool duration 0 = false).
  { destruct (Qeq_bool duration 0) eqn:E; [|reflexivity].
    apply Qeq_bool_iff in E. rewrite E in D. discriminate D. }
  induction fuel as [|fuel IH]; intros w H; [reflexivity|].
  rewrite (progress_loop_step _ _ _ _ _ _ D0).
  rewrite (frac_negative_duration _ _ _ D (H 0%nat)).
  apply IH. intros n. exact (H (S n)).
Qed.

(** X11: a progress bar of negative duration never finishes under a wall
    clock that does not run backwards: whatever the fuel, the loop is
    still running. *)
Theorem progress_bar_negative_duration env fuel duration width w :
  (duration < 0)%Q ->
  (forall n, wall w 0 <= wall w n)%Q ->
  fst (progress_bar_simulation env fuel duration width w) = Pending.
Proof.
  intros D H. unfold progress_bar_simulation.
  assert (T : time_time w = (Ok (wall w 0), after_time w)) by reflexivity.
  rewrite (run_bind _ T). unfold bind.
  pose proof (progress_loop_negative env (wall w 0) duration width D fuel
                (after_time w) (fun n => H (S n))) as P.
  destruct (progress_loop env fuel (wall w 0) duration width (after_time w))
    as [[u | e |] w1]; cbn [fst] in P; try discriminate. reflexivity.
Qed.

Lemma progress_bar_negative_duration_witness :
  fst (progress_bar_simulation env_plain 7 (-(3 # 2)) 30 world_bar) = Pending.
Proof.
  apply (progress_bar_negative_duration env_plain 7 (-(3 # 2)) 30 world_bar).
  - reflexivity.
  - intros n. unfold world_bar, world_of, Qle. cbn. lia.
Defined.

(** ** The shape of the bar *)

Lemma length_append a b :
  String.length (a ++ b) = (String.length a + String.length b)%nat.
Proof. induction a as [|c a IH]; cbn; [reflexivity | now rewrite IH]. Qed.

Lemma length_repeat_char c k :
  String.length (PyStr.repeat (String c EmptyString) k) = Z.to_nat k.
Proof.
  unfold PyStr.repeat. induction (Z.to_nat k) as [|n IH]; cbn; [reflexivity|].
  now rewrite IH.
Qed.

Lemma py_int_floor q : (0 <= q)%Q -> py_int q = Qfloor q.
Proof.
  destruct q as [a b]. unfold Qle, py_int, Qfloor. cbn [Qnum Qden].
  intros H. apply Z.quot_div_nonneg; lia.
Qed.

Lemma py_int_ceiling q : (q <= 0)%Q -> py_int q = Qceiling q.
Proof.
  destruct q as [a b]. unfold Qle, py_int, Qceiling, Qfloor, Qopp.
  cbn [Qnum Qden]. intros H.
  rewrite <- (Z.opp_involutive a) at 1.
  rewrite Z.quot_opp_l by discriminate.
  f_equal. apply Z.quot_div_nonneg; lia.
Qed.

(** [int] is monotone. *)
Lemma py_int_mono p q : (p <= q)%Q -> (py_int p <= py_int q)%Z.
Proof.
  intros H.
  destruct (Qlt_le_dec p 0) as [Pn | Pp], (Qlt_le_dec q 0) as [Qn | Qp].
  - rewrite !py_int_ceiling by lra. now apply Qceiling_resp_le.
  - rewrite (py_int_ceiling p), (py_int_floor q) by lra.
    assert (Qceiling p <= Qceiling 0)%Z by (apply Qceiling_resp_le; lra).
    assert (Qfloor 0 <= Qfloor q)%Z by (apply Qfloor_resp_le; lra).
    cbn in *. lia.
  - lra.
  - rewrite !py_int_floor by lra. now apply Qfloor_resp_le.
Qed.

Lemma py_min_le_1 x : (py_min 1 x <= 1)%Q.
Proof.
  unfold py_min. destruct (Qlt_bool x 1) eqn:E; [|lra].
  apply Qlt_bool_iff in E. lra.
Qed.

Lemma py_min_mono x y : (x <= y)%Q -> (py_min 1 x <= py_min 1 y)%Q.
Proof.
  intros H. unfold py_min.
  destruct (Qlt_bool x 1) eqn:Ex, (Qlt_bool y 1) eqn:Ey; try lra.
  - apply Qlt_bool_iff in Ex. lra.
  - apply Qlt_bool_iff in Ey.
    assert (Qlt_bool x 1 = true) by (apply Qlt_bool_iff; lra). congruence.
Qed.

Lemma py_min_nonneg x : (0 <= x)%Q -> (0 <= py_min 1 x)%Q.
Proof. intros H. unfold py_min. destruct (Qlt_bool x 1); lra. Qed.

Lemma frac_at_mono start duration w1 w2 :
  (0 < duration)%Q -> (wall w1 0 <= wall w2 0)%Q ->
  (frac_at start duration w1 <= frac_at start duration w2)%Q.
Proof.
  intros D H. unfold frac_at. apply py_min_mono.
  unfold Qdiv. apply Qmult_le_compat_r; [lra|].
  apply Qlt_le_weak. now apply Qinv_lt_0_compat.
Qed.

Lemma frac_at_range start duration w :
  (0 < duration)%Q -> (start <= wall w 0)%Q ->
  (0 <= frac_at start duration w <= 1)%Q.
Proof.
  intros D H. unfold frac_at. split; [|apply py_min_le_1].
  apply py_min_nonneg. unfold Qdiv. apply Qmult_le_0_compat; [lra|].
  apply Qlt_le_weak. now apply Qinv_lt_0_compat.
Qed.

(** X12: under a positive duration the bar never goes back: a later
    reading of the wall clock gives at least the percentage and at least
    the number of filled cells of an earlier one. *)
Theorem bar_never_goes_back start duration width w1 w2 :
  (0 < duration)%Q -> (0 <= width)%Z ->
  (wall w1 0 <= wall w2 0)%Q ->
  (bar_pct (frac_at start duration w1) <= bar_pct (frac_at start duration w2))%Z
  /\ (bar_done (frac_at start duration w1) width
      <= bar_done (frac_at start duration w2) width)%Z.
Proof.
  intros D W H. pose proof (frac_at_mono start duration w1 w2 D H) as M.
  split; apply py_int_mono.
  - apply Qmult_le_compat_r; [exact M | discriminate].
  - apply Qmult_le_compat_r; [exact M|].
    unfold Qle. cbn. lia.
Qed.

Lemma bar_never_goes_back_witness :
  (bar_pct (frac_at 0 (3 # 2) world_bar)
   <= bar_pct (frac_at 0 (3 # 2) (after_time world_bar)))%Z
  /\ (bar_done (frac_at 0 (3 # 2) world_bar) 30
      <= bar_done (frac_at 0 (3 # 2) (after_time world_bar)) 30)%Z.
Proof.
  apply (bar_never_goes_back 0 (3 # 2) 30 world_bar (after_time world_bar)).
  - reflexivity.
  - lia.
  - discriminate.
Defined.

Lemma format_3d_length z :
  (0 <= z <= 100)%Z -> String.length (PyStr.format_3d z) = 3%nat.
Proof.
  intros H.
  assert (A : forallb (fun n => String.length
                          (PyStr.format_3d (Z.of_nat n)) =? 3)%nat
                (seq 0 101) = true) by (vm_compute; reflexivity).
  rewrite forallb_forall in A.
  specialize (A (Z.to_nat z)). rewrite Z2Nat.id in A by lia.
  apply Nat.eqb_eq, A, in_seq. lia.
Qed.

(** X13: for a positive duration, a width that is not negative and a
    clock at or after the start, a frame fills between 0 and [width]
    cells, shows between 0 and 100 percent, and its bar is [width + 7]
    characters long: the brackets, [width] cells, a space, three
    characters of percentage and the percent sign. *)
Theorem bar_has_width_cells start duration width w :
  (0 < duration)%Q -> (0 <= width)%Z -> (start <= wall w 0)%Q ->
  let frac := frac_at start duration w in
  (0 <= bar_done frac width <= width)%Z
  /\ (0 <= bar_pct frac <= 100)%Z
  /\ String.length (bar_text frac width) = (Z.to_nat width + 7)%nat.
Proof.
  intros D W H frac.
  destruct (frac_at_range start duration w D H) as [L U]. fold frac in L, U.
  assert (Wq : (0 <= inject_Z width)%Q) by (unfold Qle; cbn; lia).
  assert (B1 : (0 <= bar_done frac width <= width)%Z).
  { unfold bar_done. split.
    - change 0%Z with (py_int 0). apply py_int_mono.
      now apply Qmult_le_0_compat.
    - replace width with (py_int (inject_Z width)) at 2
        by (unfold py_int; cbn; apply Z.quot_1_r).
      apply py_int_mono. rewrite <- (Qmult_1_l (inject_Z width)) at 2.
      now apply Qmult_le_compat_r. }
  assert (B2 : (0 <= bar_pct frac <= 100)%Z).
  { unfold bar_pct. split.
    - change 0%Z with (py_int 0). apply py_int_mono.
      apply Qmult_le_0_compat; [exact L | discriminate].
    - change 100%Z with (py_int 100). apply py_int_mono.
      rewrite <- (Qmult_1_l 100) at 2.
      apply Qmult_le_compat_r; [exact U | discriminate]. }
  split; [exact B1|]. split; [exact B2|].
  unfold bar_text. fold (bar_done frac width).
  rewrite !length_append, !length_repeat_char, (format_3d_length _ B2).
  cbn [String.length]. lia.
Qed.

Lemma bar_has_width_cells_witness :
  let frac := frac_at 0 (3 # 2) (after_time world_bar) in
  (0 <= bar_done frac 30 <= 30)%Z
  /\ (0 <= bar_pct frac <= 100)%Z
  /\ String.length (bar_text frac 30) = (Z.to_nat 30 + 7)%nat.
Proof.
  apply (bar_has_width_cells 0 (3 # 2) 30 (after_time world_bar)).
  - reflexivity.
  - lia.
  - discriminate.
Defined.

(** ** The spinner *)

Lemma spinner_loop_runs t0 duration k :
  forall fuel i w,
    (forall j, (j < k)%nat -> (wall w j - t0 < duration)%Q) ->
    ~ (wall w k - t0 < duration)%Q ->
    (k < fuel)%nat ->
    exists w',
      spinner_loop fuel t0 duration i w = (Ok tt, w')
      /\ trace w' = (trace w ++ spinner_events k i (calendar w))%list.
Proof.
  induction k as [|k IH]; intros fuel i w Hb He Hf;
    (destruct fuel as [|fuel]; [lia|]); cbn [spinner_loop].
  - assert (T : time_time w = (Ok (wall w 0), after_time w)) by reflexivity.
    rewrite (run_bind _ T).
    assert (B : Qlt_bool (wall w 0 - t0) duration = false).
    { destruct (Qlt_bool (wall w 0 - t0) duration) eqn:E; [|reflexivity].
      apply Qlt_bool_iff in E. contradiction. }
    rewrite B. exists (after_time w). split; [reflexivity|].
    cbn. now rewrite app_nil_r.
  - assert (T : time_time w = (Ok (wall w 0), after_time w)) by reflexivity.
    rewrite (run_bind _ T).
    assert (B : Qlt_bool (wall w 0 - t0) duration = true)
      by (apply Qlt_bool_iff; apply Hb; lia).
    rewrite B.
    set (w1 := logged (Slept (8 # 100))
                 (logged (PrintedCR
                            (strftime_ts (calendar w 0) ++ " "
                             ++ nth (i mod 4) spinner_seq EmptyString
                             ++ " working..."))
                    (advance 0 1 (after_time w)))).
    destruct (IH fuel (S i) w1) as (w' & R & Tr).
    + intros j Hj. apply (Hb (S j)). lia.
    + exact He.
    + lia.
    + exists w'. split.
      * exact R.
      * rewrite Tr. unfold w1. cbn [logged advance after_time trace calendar
                                   spinner_events].
        rewrite <- !app_assoc. reflexivity.
Qed.

(** X14: when the wall clock first reaches [duration] past its start at
    reading [k + 1], the spinner returns after exactly [k] frames, each
    followed by a pause of 0.08 seconds and showing the glyphs | / - \ in
    turn, and then ends the line.  With [k = 0], as for a duration that is
    not positive, it prints the empty line only. *)
Theorem spinner_frames fuel duration k w :
  (forall j, (j < k)%nat -> (wall w (S j) - wall w 0 < duration)%Q) ->
  ~ (wall w (S k) - wall w 0 < duration)%Q ->
  (k < fuel)%nat ->
  exists w',
    spinner fuel duration w = (Ok tt, w')
    /\ trace w'
       = (trace w ++ spinner_events k 0 (calendar w)
          ++ [Printed EmptyString])%list.
Proof.
  intros Hb He Hf. unfold spinner.
  assert (T : time_time w = (Ok (wall w 0), after_time w)) by reflexivity.
  rewrite (run_bind _ T).
  destruct (spinner_loop_runs (wall w 0) duration k fuel 0 (after_time w)
              Hb He Hf) as (w' & R & Tr).
  rewrite (run_bind _ R).
  exists (logged (Printed EmptyString) w'). split; [reflexivity|].
  cbn [logged trace]. rewrite Tr, <- app_assoc. reflexivity.
Qed.

Lemma spinner_frames_witness :
  exists w',
    spinner 5 (5 # 2) world_bar = (Ok tt, w')
    /\ trace w'
       = (trace world_bar ++ spinner_events 2 0 (calendar world_bar)
          ++ [Printed EmptyString])%list.
Proof.
  apply (spinner_frames 5 (5 # 2) 2 world_bar).
  - intros j Hj. destruct j as [|[|j]]; [reflexivity | reflexivity | lia].
  - intros H. discriminate H.
  - lia.
Defined.

(** ** Requests that succeed or are interrupted *)

Lemma fetch_quote_interrupted env w :
  have_requests env = true ->
  http w 0 = GetRaises KeyboardInterrupt ->
  fetch_quote env w = (Raise KeyboardInterrupt, after_request w).
Proof.
  intros H E. unfold fetch_quote. rewrite H. cbn [negb].
  unfold try_except, bind, requests_get. rewrite E. reflexivity.
Qed.

(** X15: a [KeyboardInterrupt] raised inside the request is not caught
    by [fetch_quote], whose handler takes [Exception] only; it ends
    [main], which prints the farewell line and returns normally.  Here
    the interrupt comes in the first pass, so the farewell is all that is
    printed. *)
Theorem interrupted_request_ends_main env clear_every fuel n w :
  have_requests env = true ->
  Qlt_bool (u53 (rng w 0)) PROGRESS_BAR_CHANCE = false ->
  Qlt_bool (u53 (rng w 1)) SPINNER_CHANCE = false ->
  Qlt_bool (u53 (rng w 2)) API_QUOTE_FREQ = true ->
  http w 0 = GetRaises KeyboardInterrupt ->
  fetch_quote env (advance 3 0 w) = (Raise KeyboardInterrupt,
                                     after_request (advance 3 0 w))
  /\ exists w',
       main env true clear_every fuel (S n) w = (Ok tt, w')
       /\ trace w'
          = (trace w
             ++ [Printed (farewell_text env (strftime_ts (calendar w 0)))])%list.
Proof.
  intros Hr Hb Hs Hq Hh.
  assert (F : fetch_quote env (advance 3 0 w)
              = (Raise KeyboardInterrupt, after_request (advance 3 0 w)))
    by (now apply fetch_quote_interrupted).
  split; [exact F|].
  assert (L : main_loop env true clear_every fuel (S n) 0 w
              = (Raise KeyboardInterrupt, after_request (advance 3 0 w))).
  { assert (P : iteration env true clear_every fuel 0 w
                = (Raise KeyboardInterrupt, after_request (advance 3 0 w))).
    { unfold iteration, maybe_clear.
      assert (S0 : should_clear clear_every 0 = false).
      { unfold should_clear. cbn [Z.eqb negb]. now rewrite andb_false_r. }
      rewrite S0, bind_ret_l.
      change (and_then SHOW_PROGRESS_BARS (chance PROGRESS_BAR_CHANCE))
        with (chance PROGRESS_BAR_CHANCE).
      rewrite (run_bind _ (chance_eq PROGRESS_BAR_CHANCE w)), Hb.
      rewrite (run_bind _ (chance_eq SPINNER_CHANCE (advance 1 0 w))).
      change (rng (advance 1 0 w) 0) with (rng w 1). rewrite Hs.
      unfold quote_or_line, and_then. rewrite Hr. cbn [andb].
      rewrite (run_bind _ (chance_eq API_QUOTE_FREQ (advance 2 0 w))).
      change (rng (advance 2 0 w) 0) with (rng w 2). rewrite Hq.
      change (advance 1 0 (advance 2 0 w)) with (advance 3 0 w).
      unfold bind. rewrite F. reflexivity. }
    cbn [main_loop]. unfold bind. rewrite P. reflexivity. }
  unfold main. rewrite L.
  eexists. split; [reflexivity|].
  unfold farewell_text. destruct (COLOR env); reflexivity.
Qed.

Lemma interrupted_request_ends_main_witness :
  fetch_quote env_plain (advance 3 0 world_interrupt)
  = (Raise KeyboardInterrupt, after_request (advance 3 0 world_interrupt))
  /\ exists w',
       main env_plain true 3 5 4 world_interrupt = (Ok tt, w')
       /\ trace w'
          = (trace world_interrupt
             ++ [Printed (farewell_text env_plain
                            (strftime_ts (calendar world_interrupt 0)))])%list.
Proof.
  apply (interrupted_request_ends_main env_plain 3 5 3 world_interrupt);
    reflexivity.
Defined.



(** ** The characters of a line *)

Lemma printable_app a b : printable (a ++ b) = printable a && printable b.
Proof.
  induction a as [|c a IH]; cbn; [reflexivity|].
  now rewrite IH, andb_assoc.
Qed.

Lemma printable_uint d : printable (NilEmpty.string_of_uint d) = true.
Proof. induction d; cbn; auto. Qed.

Lemma printable_of_Z z : printable (PyStr.of_Z z) = true.
Proof.
  unfold PyStr.of_Z, NilZero.string_of_int.
  destruct (Z.to_int z) as [d | d]; unfold NilZero.string_of_uint;
    destruct d; cbn; rewrite ?printable_uint; reflexivity.
Qed.

Lemma printable_repeat_nat c k :
  printable_char c = true ->
  printable (PyStr.repeat_nat (String c EmptyString) k) = true.
Proof. intros H. induction k as [|k IH]; cbn; [reflexivity|]. now rewrite H. Qed.

Lemma printable_zero_pad n k : printable (PyStr.zero_pad n k) = true.
Proof.
  unfold PyStr.zero_pad, PyStr.pad_left, PyStr.of_N.
  now rewrite printable_app, printable_repeat_nat, printable_of_Z.
Qed.

Lemma printable_lower_char c :
  printable_char c = true -> printable_char (PyStr.lower_char c) = true.
Proof.
  destruct c as [[|] [|] [|] [|] [|] [|] [|] [|]]; intros H;
    try discriminate H; reflexivity.
Qed.

Lemma printable_upper_char c :
  printable_char c = true -> printable_char (PyStr.upper_char c) = true.
Proof.
  destruct c as [[|] [|] [|] [|] [|] [|] [|] [|]]; intros H;
    try discriminate H; reflexivity.
Qed.

Lemma printable_lower s : printable s = true -> printable (PyStr.lower s) = true.
Proof.
  induction s as [|c s IH]; cbn; [auto|].
  intros H. apply andb_true_iff in H. destruct H as [Hc Hs].
  now rewrite (printable_lower_char _ Hc), IH.
Qed.

Lemma printable_capitalize s :
  printable s = true -> printable (PyStr.capitalize s) = true.
Proof.
  destruct s as [|c s]; cbn; [auto|].
  intros H. apply andb_true_iff in H. destruct H as [Hc Hs].
  now rewrite (printable_upper_char _ Hc), printable_lower.
Qed.

Lemma printable_snoc s c :
  printable (PyStr.snoc s c) = printable s && printable_char c.
Proof. unfold PyStr.snoc. rewrite printable_app. cbn. now rewrite andb_true_r. Qed.

Lemma printable_format kw :
  printable_kwargs kw ->
  forall n t st r, (String.length t <= n)%nat ->
    printable t = true ->
    PyStr.format_from kw st t = Some r -> printable r = true.
Proof.
  intros K. induction n as [|n IH]; intros t st r Hlen Ht H.
  - destruct t; [|cbn in Hlen; lia].
    destruct st; cbn in H; [discriminate|]. now injection H as <-.
  - destruct t as [|a t'].
    + destruct st; cbn in H; [discriminate|]. now injection H as <-.
    + cbn in Hlen. cbn [printable] in Ht.
      apply andb_true_iff in Ht. destruct Ht as [Ha Ht'].
      destruct st as [name|].
      * cbn in H. destruct (a =? "}")%char.
        -- destruct (PyStr.lookup kw name) as [v|] eqn:L; [|discriminate].
           destruct (PyStr.format_from kw None t') as [r'|] eqn:E;
             [|discriminate].
           injection H as <-. rewrite printable_app, (K _ _ L).
           apply (IH t' None); [lia | exact Ht' | exact E].
        -- destruct (PyStr.field_special a); [discriminate|].
           apply (IH t' (Some (PyStr.snoc name a))); [lia | exact Ht' | exact H].
      * cbn [PyStr.format_from] in H.
        destruct (a =? "{")%char.
        -- destruct t' as [|b t''].
           ++ cbn in H. discriminate.
           ++ destruct (b =? "{")%char.
              ** destruct (PyStr.format_from kw None t'') as [r'|] eqn:E;
                   [|discriminate].
                 injection H as <-. cbn [printable]. rewrite Ha.
                 cbn [printable] in Ht'. apply andb_true_iff in Ht'.
                 cbn in Hlen.
                 apply (IH t'' None); [lia | tauto | exact E].
              ** apply (IH (String b t'') (Some EmptyString));
                   [lia | exact Ht' | exact H].
        -- destruct (a =? "}")%char.
           ++ destruct t' as [|b t'']; [discriminate|].
              destruct (b =? "}")%char; [|discriminate].
              destruct (PyStr.format_from kw None t'') as [r'|] eqn:E;
                [|discriminate].
              injection H as <-. cbn [printable]. rewrite Ha.
              cbn [printable] in Ht'. apply andb_true_iff in Ht'.
              cbn in Hlen.
              apply (IH t'' None); [lia | tauto | exact E].
           ++ destruct (PyStr.format_from kw None t') as [r'|] eqn:E;
                [|discriminate].
              injection H as <-. cbn [printable]. rewrite Ha.
              apply (IH t' None); [lia | exact Ht' | exact E].
Qed.

Lemma printable_bank (bank : list string) n :
  forallb printable bank = true -> bank <> [] ->
  printable (pick_at bank EmptyString n) = true.
Proof.
  intros H Hne. rewrite forallb_forall in H. apply H.
  now apply pick_at_In.
Qed.

Lemma printable_round2 x : printable (round2_str x) = true.
Proof.
  unfold round2_str.
  rewrite !printable_app, printable_of_Z. cbn [printable_char printable andb].
  destruct (_ =? 0)%Z; [apply printable_of_Z | apply printable_zero_pad].
Qed.

Lemma printable_hms d : printable (strftime_hms d) = true.
Proof.
  unfold strftime_hms. now rewrite !printable_app, !printable_zero_pad.
Qed.

Lemma printable_ts d : printable (strftime_ts d) = true.
Proof.
  unfold strftime_ts.
  now rewrite !printable_app, !printable_zero_pad, printable_hms.
Qed.

Lemma printable_fields w : printable_kwargs (kwargs_of (fields_at w)).
Proof.
  intros k v. unfold kwargs_of, fields_at.
  cbn [f_adj f_verb f_verb_cap f_noun f_system f_num f_pct f_ms f_status
       f_detail f_time PyStr.lookup].
  repeat match goal with
         | |- context [if String.eqb ?a k then _ else _] =>
             destruct (String.eqb a k)
         end;
    intros [= <-];
    auto using printable_of_Z, printable_round2, printable_hms;
    try (apply printable_capitalize);
    apply printable_bank; (reflexivity || discriminate).
Qed.

Lemma printable_filled t w :
  In t sentence_templates -> printable (filled t (fields_at w)) = true.
Proof.
  intros H. pose proof (fill_templates t (fields_at w) H) as F.
  unfold fill, PyStr.format in F.
  apply (printable_format _ (printable_fields w) (String.length t) t None);
    [lia | | exact F].
  assert (A : forallb printable sentence_templates = true) by reflexivity.
  rewrite forallb_forall in A. now apply A.
Qed.

(** X17: every generated line consists of printable ASCII characters
    only: it holds no newline, no carriage return and no escape character,
    whatever the random source and the calendar. *)
Theorem log_line_is_printable w :
  exists l w',
    generate w = (Ok l, w') /\ printable (log_line_text l) = true.
Proof.
  exists (line_at w), (after_line w). split; [apply generate_eq|].
  unfold log_line_text, line_at.
  cbn [ll_ts ll_lvl ll_pid ll_sentence ll_cmd].
  rewrite !printable_app, printable_ts, printable_of_Z.
  assert (L : printable (level_at (rng (after_sentence w) 0)) = true).
  { unfold level_at.
    assert (A : forall i, printable (nth i error_levels EmptyString) = true).
    { intros i. do 7 (destruct i as [|i]; [reflexivity|]).
      destruct i; reflexivity. }
    apply A. }
  rewrite L.
  assert (S : printable (snd (sentence_at w)) = true).
  { unfold sentence_at. destruct (chain_at w); cbn [snd].
    - rewrite !printable_app, printable_lower;
        rewrite ?printable_filled by apply template_at_In; reflexivity.
    - apply printable_filled, template_at_In. }
  rewrite S.
  assert (C : printable
                (cmd_suffix
                   (if cmd_at w
                    then Some (pick_at commands EmptyString
                                 (rng (after_sentence w) 3))
                    else None)) = true).
  { destruct (cmd_at w); cbn [cmd_suffix]; [|reflexivity].
    rewrite printable_app.
    rewrite (printable_bank commands _ eq_refl) by discriminate.
    reflexivity. }
  rewrite C. reflexivity.
Qed.

(** ** Exceptions *)

Lemma safe_ret {A} (Q : A -> Prop) a : Q a -> safe Q (ret a).
Proof. intros H w. exact H. Qed.

Lemma safe_pending {A} (Q : A -> Prop) : safe Q pending.
Proof. intros w. exact I. Qed.

Lemma safe_bind {A B} (Q : A -> Prop) (Q' : B -> Prop) m k :
  safe Q m -> (forall a, Q a -> safe Q' (k a)) -> safe Q' (bind m k).
Proof.
  intros Hm Hk w. unfold bind. specialize (Hm w).
  destruct (m w) as [[a | e |] w1]; cbn [fst] in *.
  - exact (Hk a Hm w1).
  - exact Hm.
  - exact I.
Qed.

Lemma safe_weaken {A} (Q Q' : A -> Prop) m :
  (forall a, Q a -> Q' a) -> safe Q m -> safe Q' m.
Proof.
  intros H Hm w. specialize (Hm w).
  destruct (fst (m w)); auto.
Qed.

Lemma safe_rng_next : safe (fun _ => True) rng_next.
Proof. intros w. exact I. Qed.

Lemma safe_time_time : safe (fun _ => True) time_time.
Proof. intros w. exact I. Qed.

Lemma safe_datetime_now : safe (fun _ => True) datetime_now.
Proof. intros w. exact I. Qed.

Lemma safe_emit e : safe (fun _ => True) (emit e).
Proof. intros w. exact I. Qed.

Lemma safe_print s : safe (fun _ => True) (print s).
Proof. apply safe_emit. Qed.

Lemma safe_print_cr s : safe (fun _ => True) (print_cr s).
Proof. apply safe_emit. Qed.

Lemma safe_flush : safe (fun _ => True) flush.
Proof. apply safe_emit. Qed.

Lemma safe_sleep d : safe (fun _ => True) (sleep d).
Proof. apply safe_emit. Qed.

Lemma safe_os_system c : safe (fun _ => True) (os_system c).
Proof. apply safe_emit. Qed.

Create HintDb safes.
#[export] Hint Resolve safe_rng_next safe_time_time safe_datetime_now
  safe_print safe_print_cr safe_flush safe_sleep safe_os_system : safes.
#[export] Hint Extern 1 (Qle _ _) => (vm_compute; discriminate) : safes.
#[export] Hint Extern 1 (_ <> []) => discriminate : safes.
#[export] Hint Extern 1 (Z.le _ _) => lia : safes.

Ltac safe_step :=
  lazymatch goal with
  | |- safe _ (bind _ _) =>
      first [ eapply safe_bind; [solve [eauto with safes] | intros ? ?]
            | eapply (safe_bind (fun _ => True)); [| intros ? _] ]
  | |- safe _ (if ?b then _ else _) => destruct b eqn:?
  | |- safe _ (match ?x with _ => _ end) => destruct x eqn:?
  | |- safe _ (ret _) => apply safe_ret
  | |- safe _ pending => apply safe_pending
  | |- safe _ _ => solve [eauto with safes]
  end.

Ltac safe_tac := repeat safe_step; try exact I; try lia.

Lemma safe_random : safe (fun u => 0 <= u /\ u < 1)%Q Random.random.
Proof.
  unfold Random.random. safe_step. safe_step. apply u53_range.
Qed.

Lemma safe_randbelow n : safe (fun _ => True) (Random.randbelow n).
Proof. unfold Random.randbelow. safe_tac. Qed.
#[export] Hint Resolve safe_random safe_randbelow : safes.

Lemma safe_randbelow_lt n :
  n <> 0%N -> safe (fun i => (i < n)%N) (Random.randbelow n).
Proof.
  intros H. unfold Random.randbelow. safe_step. safe_step.
  now apply N.mod_lt.
Qed.

Lemma safe_choice seq :
  seq <> [] -> safe (fun x => In x seq) (Random.choice seq).
Proof.
  intros H. unfold Random.choice. destruct seq as [|s seq]; [congruence|].
  eapply safe_bind; [apply safe_randbelow_lt; discriminate|].
  intros i Hi. apply safe_ret. apply nth_In. cbn beta in Hi.
  generalize dependent (List.length (s :: seq)). intros n Hi. lia.
Qed.

Lemma safe_randint a b : (a <= b)%Z -> safe (fun _ => True) (Random.randint a b).
Proof.
  intros H. unfold Random.randint.
  assert (E : (b <? a)%Z = false) by (apply Z.ltb_ge; exact H).
  rewrite E. safe_tac.
Qed.

Lemma safe_uniform a b :
  (a <= b)%Q -> safe (fun d => a <= d /\ d <= b)%Q (Random.uniform a b).
Proof.
  intros H. unfold Random.uniform. safe_step. safe_step.
  cbn beta in *. split; nra.
Qed.

Lemma safe_choices1 p ws : safe (fun _ => True) (Random.choices1 p ws).
Proof. unfold Random.choices1. safe_tac. Qed.

Lemma safe_chance p : safe (fun _ => True) (chance p).
Proof. unfold chance. safe_tac. Qed.

Lemma safe_now_ts : safe (fun _ => True) now_ts.
Proof. unfold now_ts. safe_tac. Qed.
#[export] Hint Resolve safe_choice safe_randint safe_uniform safe_choices1
  safe_chance safe_now_ts : safes.

Lemma safe_draw_fields : safe (fun _ => True) draw_fields.
Proof. unfold draw_fields. safe_tac. Qed.
#[export] Hint Resolve safe_draw_fields : safes.

Lemma safe_pick t :
  In t sentence_templates -> safe (fun _ => True) (pick t).
Proof.
  intros H. unfold pick. safe_step.
  rewrite (fill_templates _ _ H). now apply safe_ret.
Qed.
#[export] Hint Resolve safe_pick : safes.

Lemma safe_build_sentence : safe (fun _ => True) build_sentence.
Proof. unfold build_sentence. safe_tac. Qed.
#[export] Hint Resolve safe_build_sentence : safes.

Lemma safe_generate : safe (fun _ => True) generate.
Proof. unfold generate. safe_tac. Qed.
#[export] Hint Resolve safe_generate : safes.

Lemma safe_emit_log_line env c : safe (fun _ => True) (emit_log_line env c).
Proof. unfold emit_log_line. safe_tac. Qed.

(** Whatever the network does, [fetch_quote] lets through only what
    [except Exception] does not catch. *)
Lemma safe_fetch_quote env : safe (fun _ => True) (fetch_quote env).
Proof.
  intros w. unfold fetch_quote.
  destruct (have_requests env); cbn [negb]; [|exact I].
  unfold try_except, bind, requests_get.
  destruct (http w 0) as [e | [status b]].
  - destruct (is_Exception e) eqn:E; [exact I | exact E].
  - cbn [status_code body]. destruct (status =? 200)%Z; [|exact I].
    destruct b; cbn; exact I.
Qed.
#[export] Hint Resolve safe_emit_log_line safe_fetch_quote : safes.

Lemma safe_quote_or_line env use_api c :
  safe (fun _ => True) (quote_or_line env use_api c).
Proof. unfold quote_or_line, and_then. safe_tac. Qed.

Lemma safe_progress_loop env fuel start duration width :
  Qeq_bool duration 0 = false ->
  safe (fun _ => True) (progress_loop env fuel start duration width).
Proof.
  intros D. induction fuel as [|fuel IH]; cbn [progress_loop];
    rewrite ?D; safe_tac.
Qed.

Lemma safe_spinner_loop fuel t0 duration i :
  safe (fun _ => True) (spinner_loop fuel t0 duration i).
Proof.
  revert i. induction fuel as [|fuel IH]; intros i; cbn [spinner_loop];
    safe_tac.
Qed.
#[export] Hint Resolve safe_quote_or_line safe_progress_loop
  safe_spinner_loop : safes.


Lemma safe_spinner fuel duration : safe (fun _ => True) (spinner fuel duration).
Proof. unfold spinner. safe_tac. Qed.

Lemma safe_maybe_clear env clear_every c :
  safe (fun _ => True) (maybe_clear env clear_every c).
Proof. unfold maybe_clear. safe_tac. Qed.
#[export] Hint Resolve safe_spinner safe_maybe_clear : safes.





(** ** Lines and clears *)

Lemma multiples_below_succ N c :
  (0 < N)%Z -> (0 <= c)%Z ->
  multiples_below N (c + 1)
  = (multiples_below N c + if should_clear N c then 1 else 0)%Z.
Proof.
  intros HN Hc. unfold multiples_below.
  rewrite (Z.max_l (c + 1) 1) by lia.
  replace (c + 1 - 1)%Z with c by lia.
  destruct (should_clear N c) eqn:S.
  - apply should_clear_iff in S. destruct S as (_ & Hz & Hm).
    rewrite (Z.max_l c 1) by lia.
    apply Z.mod_divide in Hm; [|lia]. destruct Hm as [q ->].
    assert (1 <= q)%Z by nia.
    replace (q * N - 1)%Z with ((q - 1) * N + (N - 1))%Z by lia.
    rewrite Z.div_add_l by lia. rewrite (Z.div_small (N - 1)) by lia.
    rewrite Z.div_mul by lia. lia.
  - rewrite Z.add_0_r.
    destruct (Z.eq_dec c 0) as [-> | Hz]; [reflexivity|].
    rewrite (Z.max_l c 1) by lia.
    assert (Hm : (c mod N <> 0)%Z).
    { intros Hm. assert (T : should_clear N c = true)
        by (apply should_clear_iff; repeat split; lia).
      congruence. }
    pose proof (Z.div_mod c N ltac:(lia)) as D.
    pose proof (Z.mod_pos_bound c N HN) as B.
    apply (Z.div_unique_pos (c - 1) N (c / N) (c mod N - 1)); lia.
Qed.

Lemma lines_only_clears env use_api N fuel :
  (0 < N)%Z ->
  forall n c w w',
    (0 <= c)%Z ->
    main_loop env use_api N fuel n c w = (Ok (c + Z.of_nat n)%Z, w') ->
    (Z.of_nat (clears (trace w')) + multiples_below N c
     = Z.of_nat (clears (trace w)) + multiples_below N (c + Z.of_nat n))%Z.
Proof.
  intros HN. induction n as [|n IH]; intros c w w' Hc H.
  - cbn in H. injection H as _ <-. rewrite Z.add_0_r. lia.
  - destruct (main_loop_step _ _ _ _ _ _ _ _ _ H) as (c1 & w1 & B & C & R).
    pose proof (main_loop_counter _ _ _ _ _ _ _ _ _ R) as P.
    assert (E : c1 = (c + 1)%Z) by lia. subst c1.
    replace (c + Z.of_nat (S n))%Z with (c + 1 + Z.of_nat n)%Z in * by lia.
    specialize (IH (c + 1)%Z w1 w' ltac:(lia) R).
    rewrite (multiples_below_succ N c HN Hc) in IH.
    rewrite C in IH. destruct (should_clear N c); lia.
Qed.

(** X20: when no pass runs a bar or a spinner, so that [n + 1] completed
    passes leave the counter at [n + 1], the screen has been cleared
    exactly once per [N] lines: [n / N] times, rounded down. *)
Theorem lines_only_clear_every_interval env use_api N fuel n w w' :
  (0 < N)%Z ->
  main_loop env use_api N fuel (S n) 0 w = (Ok (Z.of_nat (S n)), w') ->
  Z.of_nat (clears (trace w')) = (Z.of_nat (clears (trace w)) + Z.of_nat n / N)%Z.
Proof.
  intros HN H.
  pose proof (lines_only_clears env use_api N fuel HN (S n) 0 w w'
                (Z.le_refl 0) H) as L.
  unfold multiples_below in L.
  rewrite (Z.max_l (0 + Z.of_nat (S n)) 1) in L by lia.
  replace (0 + Z.of_nat (S n) - 1)%Z with (Z.of_nat n) in L by lia.
  change ((Z.max 0 1 - 1) / N)%Z with (0 / N)%Z in L.
  rewrite Z.div_0_l in L by lia. lia.
Qed.

Lemma lines_only_clear_every_interval_witness :
  Z.of_nat (clears (trace (snd (main_loop env_plain false 2 5 4 0 world_lines))))
  = (Z.of_nat (clears (trace world_lines)) + Z.of_nat 3 / 2)%Z.
Proof.
  apply (lines_only_clear_every_interval env_plain false 2 5 3 world_lines
           (snd (main_loop env_plain false 2 5 4 0 world_lines))).
  - reflexivity.
  - vm_compute. reflexivity.
Defined.

Lemma lines_printed_app t1 t2 :
  lines_printed (t1 ++ t2) = (lines_printed t1 + lines_printed t2)%nat.
Proof. unfold lines_printed. now rewrite filter_app, length_app. Qed.

Lemma prints_ret {A} (a : A) : prints 0 (ret a).
Proof. intros w b w' [= _ <-]. lia. Qed.

Lemma prints_raise {A} k e : prints k (@raise A e).
Proof. intros w b w' H. discriminate H. Qed.

Lemma prints_pending {A} k : prints k (@pending A).
Proof. intros w b w' H. discriminate H. Qed.

Lemma prints_bind {A B} j k t (m : M A) (f : A -> M B) :
  prints j m -> (forall a, prints k (f a)) -> (j + k)%nat = t ->
  prints t (bind m f).
Proof.
  intros Hm Hf <- w b w' H.
  destruct (bind_ok _ _ _ _ _ H) as (a & w1 & M1 & M2).
  rewrite (Hf a _ _ _ M2), (Hm _ _ _ M1). lia.
Qed.

Lemma prints_read {A} (m : M A) :
  (forall w, trace (snd (m w)) = trace w) -> prints 0 m.
Proof.
  intros H w a w' E. specialize (H w). rewrite E in H. cbn in H.
  rewrite H. lia.
Qed.

Lemma prints_emit e : prints (if is_line e then 1 else 0) (emit e).
Proof.
  intros w a w' [= _ <-]. cbn [trace]. rewrite lines_printed_app.
  unfold lines_printed at 2. cbn [filter]. destruct (is_line e); reflexivity.
Qed.

Lemma prints_print s : prints 1 (print s).
Proof. exact (prints_emit (Printed s)). Qed.

Lemma prints_print_cr s : prints 0 (print_cr s).
Proof. exact (prints_emit (PrintedCR s)). Qed.

Lemma prints_flush : prints 0 flush.
Proof. exact (prints_emit Flushed). Qed.

Lemma prints_sleep d : prints 0 (sleep d).
Proof. exact (prints_emit (Slept d)). Qed.

Lemma prints_os_system c : prints 0 (os_system c).
Proof. exact (prints_emit (Ran c)). Qed.

Lemma prints_rng_next : prints 0 rng_next.
Proof. now apply prints_read. Qed.

Lemma prints_time_time : prints 0 time_time.
Proof. now apply prints_read. Qed.

Lemma prints_datetime_now : prints 0 datetime_now.
Proof. now apply prints_read. Qed.

Lemma prints_requests_get : prints 0 requests_get.
Proof. now apply prints_read. Qed.

Create HintDb lines.
#[export] Hint Resolve prints_print prints_print_cr prints_flush prints_sleep
  prints_os_system prints_rng_next prints_time_time prints_datetime_now
  prints_requests_get : lines.

Ltac prints_step :=
  lazymatch goal with
  | |- prints _ (bind _ _) =>
      eapply prints_bind; [ | intros ? | ]
  | |- prints _ (if ?b then _ else _) => destruct b eqn:?
  | |- prints _ (match ?x with _ => _ end) => destruct x eqn:?
  | |- prints _ (ret _) => apply prints_ret
  | |- prints _ (raise _) => apply prints_raise
  | |- prints _ pending => apply prints_pending
  | |- prints _ _ => solve [eauto with lines]
  | |- (_ = _)%nat => reflexivity
  end.

Ltac prints_tac := repeat prints_step.

Lemma prints_random : prints 0 Random.random.
Proof. unfold Random.random. prints_tac. Qed.

Lemma prints_randbelow n : prints 0 (Random.randbelow n).
Proof. unfold Random.randbelow. prints_tac. Qed.
#[export] Hint Resolve prints_random prints_randbelow : lines.

Lemma prints_choice seq : prints 0 (Random.choice seq).
Proof. unfold Random.choice. prints_tac. Qed.

Lemma prints_randint a b : prints 0 (Random.randint a b).
Proof. unfold Random.randint. prints_tac. Qed.

Lemma prints_uniform a b : prints 0 (Random.uniform a b).
Proof. unfold Random.uniform. prints_tac. Qed.

Lemma prints_choices1 p ws : prints 0 (Random.choices1 p ws).
Proof. unfold Random.choices1. prints_tac. Qed.

Lemma prints_chance p : prints 0 (chance p).
Proof. unfold chance. prints_tac. Qed.

Lemma prints_now_ts : prints 0 now_ts.
Proof. unfold now_ts. prints_tac. Qed.
#[export] Hint Resolve prints_choice prints_randint prints_uniform
  prints_choices1 prints_chance prints_now_ts : lines.

Lemma prints_generate : prints 0 generate.
Proof.
  intros w a w' H. rewrite generate_eq in H. injection H as _ <-.
  unfold after_line, after_sentence.
  destruct (cmd_at w), (chain_at w); cbn [advance trace]; lia.
Qed.
#[export] Hint Resolve prints_generate : lines.

Lemma prints_emit_log_line env c : prints 1 (emit_log_line env c).
Proof. unfold emit_log_line. prints_tac. Qed.

Lemma prints_fetch_quote env : prints 0 (fetch_quote env).
Proof.
  intros w a w' H. unfold fetch_quote in H.
  destruct (have_requests env); cbn [negb] in H.
  - unfold try_except, bind, requests_get in H.
    destruct (http w 0) as [e | [status b]].
    + destruct (is_Exception e); [|discriminate H].
      injection H as _ <-. cbn [trace]. lia.
    + cbn [status_code body] in H. destruct (status =? 200)%Z.
      * destruct b; cbv [quote_of_body raise ret is_Exception] in H;
          injection H as _ <-; cbn [trace]; lia.
      * injection H as _ <-. cbn [trace]. lia.
  - injection H as _ <-. lia.
Qed.
#[export] Hint Resolve prints_emit_log_line prints_fetch_quote : lines.

Lemma prints_quote_or_line env use_api c :
  prints 1 (quote_or_line env use_api c).
Proof.
  unfold quote_or_line, and_then.
  eapply prints_bind with (j := 0%nat) (k := 1%nat); [| intros due | reflexivity].
  - prints_tac.
  - eapply prints_bind with (j := 0%nat) (k := 1%nat);
      [| intros q | reflexivity].
    + prints_tac.
    + destruct (truthy q); [|apply prints_emit_log_line].
      prints_tac.
Qed.

Lemma prints_progress_loop env fuel start duration width :
  prints 0 (progress_loop env fuel start duration width).
Proof.
  induction fuel as [|fuel IH]; cbn [progress_loop]; [apply prints_pending|].
  eapply prints_bind with (j := 0%nat) (k := 0%nat);
    [prints_tac | intros t | reflexivity].
  destruct (Qeq_bool duration 0); [apply prints_raise|].
  eapply prints_bind with (j := 0%nat) (k := 0%nat);
    [prints_tac | intros ts | reflexivity].
  eapply prints_bind with (j := 0%nat) (k := 0%nat);
    [prints_tac | intros _ | reflexivity].
  eapply prints_bind with (j := 0%nat) (k := 0%nat);
    [prints_tac | intros _ | reflexivity].
  destruct (Qle_bool 1 _); [apply prints_ret|].
  eapply prints_bind with (j := 0%nat) (k := 0%nat);
    [prints_tac | intros u | reflexivity].
  eapply prints_bind with (j := 0%nat) (k := 0%nat);
    [prints_tac | intros _ | reflexivity].
  exact IH.
Qed.

Lemma prints_spinner_loop fuel t0 duration i :
  prints 0 (spinner_loop fuel t0 duration i).
Proof.
  revert i. induction fuel as [|fuel IH]; intros i; cbn [spinner_loop];
    [apply prints_pending|].
  eapply prints_bind with (j := 0%nat) (k := 0%nat);
    [prints_tac | intros t | reflexivity].
  destruct (Qlt_bool _ _); [|apply prints_ret].
  eapply prints_bind with (j := 0%nat) (k := 0%nat);
    [prints_tac | intros ts | reflexivity].
  eapply prints_bind with (j := 0%nat) (k := 0%nat);
    [prints_tac | intros _ | reflexivity].
  eapply prints_bind with (j := 0%nat) (k := 0%nat);
    [prints_tac | intros _ | reflexivity].
  apply IH.
Qed.
#[export] Hint Resolve prints_quote_or_line prints_progress_loop
  prints_spinner_loop : lines.

Lemma prints_progress_bar env fuel duration width :
  prints 1 (progress_bar_simulation env fuel duration width).
Proof. unfold progress_bar_simulation. prints_tac. Qed.

Lemma prints_spinner fuel duration : prints 1 (spinner fuel duration).
Proof. unfold spinner. prints_tac. Qed.
#[export] Hint Resolve prints_progress_bar prints_spinner : lines.

Lemma prints_maybe_clear env clear_every c :
  prints (if should_clear clear_every c then 1 else 0)
    (maybe_clear env clear_every c).
Proof.
  unfold maybe_clear. destruct (should_clear clear_every c); prints_tac.
Qed.

Lemma prints_iteration env use_api clear_every fuel c :
  prints (if should_clear clear_every c then 2 else 1)
    (iteration env use_api clear_every fuel c).
Proof.
  unfold iteration.
  eapply prints_bind with (k := 1%nat);
    [apply prints_maybe_clear | intros _
    | destruct (should_clear clear_every c); reflexivity].
  change (and_then SHOW_PROGRESS_BARS (chance PROGRESS_BAR_CHANCE))
    with (chance PROGRESS_BAR_CHANCE).
  eapply prints_bind with (j := 0%nat) (k := 1%nat);
    [prints_tac | intros bar | reflexivity].
  destruct bar.
  - prints_tac.
  - eapply prints_bind with (j := 0%nat) (k := 1%nat);
      [prints_tac | intros spin | reflexivity].
    destruct spin; [prints_tac | apply prints_quote_or_line].
Qed.

(** X19: every completed pass completes exactly one line of its own (a
    generated line, a quote, or the line a bar or a spinner ends with),
    and one more, the display-buffer line, for each clear: after [n]
    completed passes the trace has gained [n] lines plus one per clear,
    although the counter has gained three for a bar and two for a
    spinner. *)
Theorem one_line_per_pass env use_api clear_every fuel n c w c' w' :
  main_loop env use_api clear_every fuel n c w = (Ok c', w') ->
  (lines_printed (trace w') + clears (trace w)
   = lines_printed (trace w) + n + clears (trace w'))%nat.
Proof.
  revert c w. induction n as [|n IH]; intros c w H.
  - cbn in H. injection H as _ <-. lia.
  - cbn [main_loop] in H.
    destruct (bind_ok _ _ _ _ _ H) as (c1 & w1 & I1 & R).
    specialize (IH c1 w1 R).
    pose proof (prints_iteration env use_api clear_every fuel c w c1 w1 I1) as L.
    pose proof (clears_iteration env use_api clear_every fuel c w) as C.
    rewrite I1 in C. cbn [snd] in C.
    destruct (should_clear clear_every c); lia.
Qed.

Lemma one_line_per_pass_witness :
  (lines_printed (trace (snd (main_loop env_plain false 3 5 6 0 world_skip)))
   + clears (trace world_skip)
   = lines_printed (trace world_skip) + 6
     + clears (trace (snd (main_loop env_plain false 3 5 6 0 world_skip))))%nat.
Proof.
  apply (one_line_per_pass env_plain false 3 5 6 0 world_skip 7
           (snd (main_loop env_plain false 3 5 6 0 world_skip))).
  vm_compute. reflexivity.
Defined.
